(** * Long-running plugin lifecycle of the SSM agent: model and properties

    The development embeds three Go files:
    - [agent/longrunning/manager/coreplugin.go]  ([Manager], [Execute], [RequestStop]),
    - [agent/longrunning/manager/utils.go]       ([ensurePluginsAreRunning], [RegisteredPlugins]),
    - [agent/framework/plugin/plugin.go]         (the cached plugin registries).

    Go values are modelled as follows: a [map[string]V] is a [gmap string V]
    (wrapped in [option] where the nil map is observable), an [error] is an
    [option string] with [None] for [nil], an interface or pointer that may be
    nil is an [option], and every call that leaves the package (logger, data
    store, scheduler, task pool, plugin handler) is recorded as an [Event]. *)

From Stdlib Require Import ZArith.
From stdpp Require Import base gmap strings list fin_maps.

Local Open Scope string_scope.
Local Open Scope list_scope.

(** ** Go-level conventions *)

(** A Go [error]: [None] is [nil]. *)
Abbreviation error := (option string).

(** A Go map value that may be the nil map. *)
Abbreviation GoMap V := (option (gmap string V)).

Section GoMapOps.
Context {V : Type}.

(** [len(m)]; the nil map has length 0. *)
Definition len (m : GoMap V) : nat :=
  match m with
  | None => 0
  | Some g => size g
  end.

(** The key set ranged over by [for k := range m]. *)
Definition keys (m : GoMap V) : list string :=
  match m with
  | None => []
  | Some g => (map_to_list g).*1
  end.

(** Go leaves the iteration order of [range] over a map unspecified: a run
    visits every key once, in some order. *)
Definition range_order (m : GoMap V) (order : list string) : Prop :=
  order ≡ₚ keys m.

#[global] Instance range_order_dec m order : Decision (range_order m order).
Proof. unfold range_order. apply _. Defined.

Definition has_key (m : GoMap V) (k : string) : bool :=
  match m with
  | None => false
  | Some g => bool_decide (is_Some (g !! k))
  end.
End GoMapOps.

(** ** package time *)
Module time.
(** [time.Duration] is an int64 count of nanoseconds. *)
Definition Duration := Z.
Definition Nanosecond : Duration := 1%Z.
Definition Microsecond : Duration := (1000 * Nanosecond)%Z.
Definition Millisecond : Duration := (1000 * Microsecond)%Z.
Definition Second : Duration := (1000 * Millisecond)%Z.
End time.

(** ** package contracts *)
Module contracts.
(** Modelled from the spec: [contracts.StopType] is declared outside the
    embedded files; the process control surface takes a stop type in
    {SoftStop, HardStop}. *)
Inductive StopType := StopTypeSoftStop | StopTypeHardStop.

#[global] Instance StopType_eq_dec : EqDecision StopType.
Proof. solve_decision. Defined.
End contracts.

(** ** package agent/longrunning/plugin (imported as [managerContracts]) *)
Module managerContracts.
(** Modelled from the spec: the types of this package are declared outside
    the embedded files.  A [PluginInfo] has a name, an opaque serialized
    configuration and a plugin-defined state; a [Plugin] pairs a
    [PluginInfo] with a [Handler], a value of the interface every
    long-running plugin implements (Start / Stop / IsRunning). *)
Definition PluginState := string.

Record PluginInfo := {
  Name : string;
  Configuration : string;
  State : PluginState;
}.

(** An implementation of the capability contract, identified by the
    object behind the interface value. *)
Definition LongRunningPlugin := nat.

Record Plugin := {
  Info : PluginInfo;
  Handler : option LongRunningPlugin;   (* [None] is the nil interface *)
}.

(** The zero values Go produces for [PluginInfo{}] and [Plugin{}]. *)
Definition zeroPluginInfo : PluginInfo :=
  {| Name := ""; Configuration := ""; State := "" |}.
Definition zeroPlugin : Plugin :=
  {| Info := zeroPluginInfo; Handler := None |}.
End managerContracts.

(** ** package task *)
Module task.
Import managerContracts.

(** The work closure handed to a pool by the manager: a deferred
    [Handler.Start(context, configuration, orchestrationDir, cancelFlag)]. *)
Record Job := {
  jobHandler : option LongRunningPlugin;
  jobConfiguration : string;
  jobOrchestrationDir : string;
}.

(** Modelled from the spec: [task.Pool] is an external primitive.
    [Submit(jobId, workFn)] rejects a job whose [jobId] is already pending or
    running; [ShutdownAndWait(deadline)] stops accepting jobs and waits up to
    the deadline, after which the jobs still running are abandoned. *)
Record Pool := {
  jobs : gmap string Job;      (* pending or running, by job identity *)
  accepting : bool;
}.

Definition emptyPool : Pool := {| jobs := ∅; accepting := true |}.

(** [Submit]: the returned flag tells whether the job was accepted. *)
Definition Submit (p : Pool) (jobId : string) (work : Job) : Pool * bool :=
  if accepting p then
    match jobs p !! jobId with
    | Some _ => (p, false)
    | None => ({| jobs := <[jobId := work]> (jobs p); accepting := true |}, true)
    end
  else (p, false).

(** [ShutdownAndWait]: [drained] tells whether every job finished within
    the deadline. *)
Definition ShutdownAndWait (p : Pool) (drained : bool) : Pool :=
  {| jobs := if drained then ∅ else jobs p; accepting := false |}.
End task.

(** ** package agent/longrunning/manager *)
Module manager.
Import contracts.

(** *** Constants of coreplugin.go and utils.go *)
Definition Name : string := "LongRunningPluginsManager".
Definition NumberOfLongRunningPluginWorkers : Z := 5.
Definition NumberOfCancelWorkers : Z := 5.
Definition PollFrequencyMinutes : Z := 15.
Definition HardStopTimeout : time.Duration := (4 * time.Second)%Z.
Definition SoftStopTimeout : time.Duration := (20 * time.Second)%Z.
Definition PluginNameAwsCloudwatch : string := "aws:cloudWatch".

(** A [*scheduler.Job], identified by its address; its [Quit] channel is
    the only part the manager touches. *)
Definition SchedulerJob := nat.

(** *** The Manager struct *)
Record Manager := {
  startPlugin : task.Pool;
  stopPlugin : task.Pool;
  runningPlugins : GoMap managerContracts.PluginInfo;
  registeredPlugins : gmap string managerContracts.Plugin;
  managingLifeCycleJob : option SchedulerJob;    (* [None] is the nil pointer *)
}.

Definition set_startPlugin (p : task.Pool) (m : Manager) : Manager :=
  {| startPlugin := p; stopPlugin := stopPlugin m;
     runningPlugins := runningPlugins m;
     registeredPlugins := registeredPlugins m;
     managingLifeCycleJob := managingLifeCycleJob m |}.

Definition set_stopPlugin (p : task.Pool) (m : Manager) : Manager :=
  {| startPlugin := startPlugin m; stopPlugin := p;
     runningPlugins := runningPlugins m;
     registeredPlugins := registeredPlugins m;
     managingLifeCycleJob := managingLifeCycleJob m |}.

Definition set_runningPlugins (r : GoMap managerContracts.PluginInfo)
    (m : Manager) : Manager :=
  {| startPlugin := startPlugin m; stopPlugin := stopPlugin m;
     runningPlugins := r;
     registeredPlugins := registeredPlugins m;
     managingLifeCycleJob := managingLifeCycleJob m |}.

Definition set_managingLifeCycleJob (j : option SchedulerJob)
    (m : Manager) : Manager :=
  {| startPlugin := startPlugin m; stopPlugin := stopPlugin m;
     runningPlugins := runningPlugins m;
     registeredPlugins := registeredPlugins m;
     managingLifeCycleJob := j |}.

(** *** Calls that leave the package
    Each call is recorded with what it was given or what it answered.  The
    calls are taken to come back: [Start] and [IsRunning] return, the send on
    a job's [Quit] channel completes, and [ShutdownAndWait] returns once its
    deadline has passed at the latest. *)
Inductive PoolName := startPool | stopPool.
Inductive LogLevel := Info | Error.

Inductive Event :=
| Logf (lvl : LogLevel) (format : string)
| DataStoreRead
| HandlerStart (h : managerContracts.LongRunningPlugin)
    (configuration orchestrationDir : string)
| HandlerIsRunning (h : managerContracts.LongRunningPlugin) (running : bool)
| PoolSubmit (pool : PoolName) (jobId : string) (work : task.Job) (accepted : bool)
| SchedulerEveryMinutesRun (minutes : Z) (err : error)
| JobQuitSend (job : SchedulerJob)
| PoolShutdownCall (pool : PoolName) (timeout : time.Duration)
| PoolShutdownReturn (pool : PoolName) (drained : bool).

#[global] Instance PoolName_eq_dec : EqDecision PoolName.
Proof. solve_decision. Defined.

(** *** Method bodies: manager state, emitted events, and panics *)
Inductive Result (A : Type) :=
| Returns (a : A) (m : Manager) (tr : list Event)
| Panics (m : Manager) (tr : list Event).
Arguments Returns {A} a m tr.
Arguments Panics {A} m tr.

Definition M (A : Type) : Type := Manager → Result A.

Definition ret {A} (a : A) : M A := λ m, Returns a m [].

Definition bind {A B} (c : M A) (k : A → M B) : M B := λ m,
  match c m with
  | Returns a m1 t1 =>
      match k a m1 with
      | Returns b m2 t2 => Returns b m2 (t1 ++ t2)
      | Panics m2 t2 => Panics m2 (t1 ++ t2)
      end
  | Panics m1 t1 => Panics m1 t1
  end.

(** A nil dereference: the goroutine unwinds. *)
Definition panic {A} : M A := λ m, Panics m [].
Definition get : M Manager := λ m, Returns m m [].
Definition modify (f : Manager → Manager) : M unit := λ m, Returns tt (f m) [].
Definition emit (e : Event) : M unit := λ m, Returns tt m [e].
Definition logf (lvl : LogLevel) (format : string) : M unit := emit (Logf lvl format).

Declare Scope go_scope.
Delimit Scope go_scope with go.
Notation "x ← y ; z" := (bind y (λ x, z))
  (at level 20, y at level 100, z at level 200, only parsing) : go_scope.
Notation "x ;; z" := (bind x (λ _, z))
  (at level 100, z at level 200, only parsing, right associativity) : go_scope.
Local Open Scope go_scope.

(** [for k := range ...] over the keys in the order the runtime picked; a
    panic in the body ends the loop. *)
Fixpoint for_range (order : list string) (body : string → M unit) : M unit :=
  match order with
  | [] => ret tt
  | k :: rest => body k ;; for_range rest body
  end.

Definition trace_of {A} (r : Result A) : list Event :=
  match r with
  | Returns _ _ tr => tr
  | Panics _ tr => tr
  end.

Definition manager_of {A} (r : Result A) : Manager :=
  match r with
  | Returns _ m _ => m
  | Panics m _ => m
  end.

Definition panicked {A} (r : Result A) : bool :=
  match r with
  | Returns _ _ _ => false
  | Panics _ _ => true
  end.

(** The job identities passed to [Submit] on the given pool, in order. *)
Definition submitted (pool : PoolName) (tr : list Event) : list string :=
  omap (λ e, match e with
             | PoolSubmit q jobId _ _ =>
                 if decide (q = pool) then Some jobId else None
             | _ => None
             end) tr.

(** The handlers whose [Start] was called directly, with the configuration
    passed, in order. *)
Definition started (tr : list Event)
    : list (managerContracts.LongRunningPlugin * string) :=
  omap (λ e, match e with
             | HandlerStart h c _ => Some (h, c)
             | _ => None
             end) tr.

(** *** utils.go: RegisteredPlugins
    [newCloudwatch] is what [cloudwatch.NewPlugin(...)] returned. *)
Definition RegisteredPlugins
    (newCloudwatch : managerContracts.LongRunningPlugin * error)
    : gmap string managerContracts.Plugin :=
  let longrunningplugins : gmap string managerContracts.Plugin := ∅ in
  let cwInfo :=
    {| managerContracts.Name := PluginNameAwsCloudwatch;
       managerContracts.Configuration := "";
       managerContracts.State := "" |} in
  let '(handler, err) := newCloudwatch in
  match err with
  | None =>
      let cw := {| managerContracts.Info := cwInfo;
                   managerContracts.Handler := Some handler |} in
      <[PluginNameAwsCloudwatch := cw]> longrunningplugins
  | Some _ => longrunningplugins
  end.

(** *** coreplugin.go: EnsureInitialization
    The package-level [singletonInstance]; [once.Do] runs its body only while
    the instance has not been built. *)
Definition EnsureInitialization
    (newCloudwatch : managerContracts.LongRunningPlugin * error)
    (singletonInstance : option Manager) : option Manager :=
  match singletonInstance with
  | Some m => Some m
  | None =>
      let plugins : gmap string managerContracts.PluginInfo := ∅ in
      let regPlugins := RegisteredPlugins newCloudwatch in
      Some {| startPlugin := task.emptyPool;
              stopPlugin := task.emptyPool;
              runningPlugins := Some plugins;
              registeredPlugins := regPlugins;
              managingLifeCycleJob := None |}
  end.

(** [p.Handler.Start(m.context, configuration, orchestrationDir, flag)]
    called in place; a nil [Handler] is a nil dereference.  The error
    [Start] returns is dropped by both callers.  The event records the
    handler, the configuration and the orchestration directory; the context
    and the cancel flag are not recorded. *)
Definition callStart (h : option managerContracts.LongRunningPlugin)
    (configuration orchestrationDir : string) : M unit :=
  match h with
  | None => panic
  | Some h => emit (HandlerStart h configuration orchestrationDir)
  end.

(** *** coreplugin.go: Execute
    [read] is what [dataStore.Read()] returned, [order] the order in which
    [range] visits the running plugins, [sched] what
    [scheduler.Every(...).Minutes().Run(...)] returned. *)

(** The body of the revival loop, lines 148-159. *)
Definition revive (pluginName : string) : M unit :=
  m ← get;
  let p := default managerContracts.zeroPlugin
             (registeredPlugins m !! pluginName) in
  logf Info "Detected %s as a previously executing long running plugin. Starting that plugin again";;
  callStart (managerContracts.Handler p)
    (managerContracts.Configuration (managerContracts.Info p)) "".

Definition Execute (read : GoMap managerContracts.PluginInfo * error)
    (order : list string) (sched : option SchedulerJob * error) : M error :=
  logf Info "starting long running plugin manager";;
  emit DataStoreRead;;
  modify (set_runningPlugins read.1);;
  let err := read.2 in
  match err with
  | Some _ =>
      logf Error "%s is exiting - unable to read from data store";;
      ret err
  | None =>
      m ← get;
      (if bool_decide (0 < len (runningPlugins m)) then
         for_range order revive
       else
         logf Info "there aren't any long running plugin to execute");;
      emit (SchedulerEveryMinutesRun PollFrequencyMinutes sched.2);;
      modify (set_managingLifeCycleJob sched.1);;
      let err := sched.2 in
      (match err with
       | Some _ => logf Error "unable to schedule long running plugins manager. %v"
       | None => ret tt
       end);;
      ret err
  end.

(** *** utils.go: ensurePluginsAreRunning
    [isRunning h] is what [h.IsRunning(m.context)] answers when asked. *)
Definition startJob (p : managerContracts.Plugin) : task.Job :=
  {| task.jobHandler := managerContracts.Handler p;
     task.jobConfiguration :=
       managerContracts.Configuration (managerContracts.Info p);
     task.jobOrchestrationDir := "" |}.

Definition submitStart (jobId : string) (work : task.Job) : M unit :=
  m ← get;
  let '(pool, accepted) := task.Submit (startPlugin m) jobId work in
  modify (set_startPlugin pool);;
  emit (PoolSubmit startPool jobId work accepted).

Definition callIsRunning (h : option managerContracts.LongRunningPlugin)
    (isRunning : managerContracts.LongRunningPlugin → bool) : M bool :=
  match h with
  | None => panic
  | Some h => emit (HandlerIsRunning h (isRunning h));; ret (isRunning h)
  end.

(** The body of the health-check loop, lines 44-52 of utils.go; the second
    operand of [&&] is evaluated only for a registered name. *)
Definition healthcheck
    (isRunning : managerContracts.LongRunningPlugin → bool)
    (n : string) : M unit :=
  m ← get;
  match registeredPlugins m !! n with
  | Some p =>
      running ← callIsRunning (managerContracts.Handler p) isRunning;
      if negb running then
        logf Info "Starting %s since it wasn't running before";;
        submitStart n (startJob p)
      else ret tt
  | None => ret tt
  end.

Definition ensurePluginsAreRunning
    (isRunning : managerContracts.LongRunningPlugin → bool)
    (order : list string) : M unit :=
  m ← get;
  if bool_decide (0 < len (runningPlugins m)) then
    for_range order (healthcheck isRunning)
  else
    logf Info "There are no long running plugins currently getting executed - skipping their healthcheck".

(** *** utils.go: stopLifeCycleManagementJob *)
Definition stopLifeCycleManagementJob : M unit :=
  m ← get;
  match managingLifeCycleJob m with
  | Some job => emit (JobQuitSend job)
  | None => ret tt
  end.

(** *** coreplugin.go: RequestStop

    [RequestStop] runs three threads: the caller and the two goroutines it
    spawns, joined by a [sync.WaitGroup].  Each thread is a program counter
    over its statements; a schedule says which thread moves next.  A thread
    that cannot move (not spawned yet, finished, or blocked in [wg.Wait])
    leaves the state unchanged. *)
Inductive Thread := Caller | Goroutine (pool : PoolName).

Inductive CallerPc :=
| AtSelectTimeout      (* if stopType == StopTypeSoftStop ... *)
| AtStopJob            (* m.stopLifeCycleManagementJob() *)
| AtAdd1               (* wg.Add(1) *)
| AtGo1                (* go func() { ... m.startPlugin ... }() *)
| AtAdd2               (* wg.Add(1) *)
| AtGo2                (* go func() { ... m.stopPlugin ... }() *)
| AtWait               (* wg.Wait() *)
| AtReturn             (* return nil *)
| Returned
| Crashed.

Inductive GoroutinePc :=
| NotSpawned
| AtShutdownAndWait    (* pool.ShutdownAndWait(waitTimeout) is called *)
| InShutdownAndWait    (* ... and returns *)
| AtDone               (* deferred wg.Done() *)
| Finished.

Record StopState := {
  callerPc : CallerPc;
  startPc : GoroutinePc;
  stopPc : GoroutinePc;
  waitTimeout : time.Duration;
  wg : Z;
  stErr : error;                 (* the named result [err] *)
  stManager : Manager;
  stTrace : list Event;
}.

Definition goroutinePc (q : PoolName) (s : StopState) : GoroutinePc :=
  match q with
  | startPool => startPc s
  | stopPool => stopPc s
  end.

Definition poolOf (q : PoolName) (m : Manager) : task.Pool :=
  match q with
  | startPool => startPlugin m
  | stopPool => stopPlugin m
  end.

Definition set_pool (q : PoolName) (p : task.Pool) (m : Manager) : Manager :=
  match q with
  | startPool => set_startPlugin p m
  | stopPool => set_stopPlugin p m
  end.

Definition set_callerPc (pc : CallerPc) (s : StopState) : StopState :=
  {| callerPc := pc; startPc := startPc s; stopPc := stopPc s;
     waitTimeout := waitTimeout s; wg := wg s; stErr := stErr s;
     stManager := stManager s; stTrace := stTrace s |}.

Definition set_goroutinePc (q : PoolName) (pc : GoroutinePc) (s : StopState)
    : StopState :=
  {| callerPc := callerPc s;
     startPc := if decide (q = startPool) then pc else startPc s;
     stopPc := if decide (q = stopPool) then pc else stopPc s;
     waitTimeout := waitTimeout s; wg := wg s; stErr := stErr s;
     stManager := stManager s; stTrace := stTrace s |}.

Definition set_waitTimeout (d : time.Duration) (s : StopState) : StopState :=
  {| callerPc := callerPc s; startPc := startPc s; stopPc := stopPc s;
     waitTimeout := d; wg := wg s; stErr := stErr s;
     stManager := stManager s; stTrace := stTrace s |}.

Definition set_stErr (e : error) (s : StopState) : StopState :=
  {| callerPc := callerPc s; startPc := startPc s; stopPc := stopPc s;
     waitTimeout := waitTimeout s; wg := wg s; stErr := e;
     stManager := stManager s; stTrace := stTrace s |}.

Definition set_wg (n : Z) (s : StopState) : StopState :=
  {| callerPc := callerPc s; startPc := startPc s; stopPc := stopPc s;
     waitTimeout := waitTimeout s; wg := n; stErr := stErr s;
     stManager := stManager s; stTrace := stTrace s |}.

(** Runs a method body on the manager of the state and appends its events. *)
Definition perform (c : M unit) (next : CallerPc) (s : StopState) : StopState :=
  match c (stManager s) with
  | Returns _ m tr =>
      {| callerPc := next; startPc := startPc s; stopPc := stopPc s;
         waitTimeout := waitTimeout s; wg := wg s; stErr := stErr s;
         stManager := m; stTrace := stTrace s ++ tr |}
  | Panics m tr =>
      {| callerPc := Crashed; startPc := startPc s; stopPc := stopPc s;
         waitTimeout := waitTimeout s; wg := wg s; stErr := stErr s;
         stManager := m; stTrace := stTrace s ++ tr |}
  end.

Definition selectTimeout (stopType : StopType) : time.Duration :=
  if decide (stopType = StopTypeSoftStop) then SoftStopTimeout
  else HardStopTimeout.

Definition stepCaller (stopType : StopType) (s : StopState) : StopState :=
  match callerPc s with
  | AtSelectTimeout =>
      set_callerPc AtStopJob (set_waitTimeout (selectTimeout stopType) s)
  | AtStopJob => perform stopLifeCycleManagementJob AtAdd1 s
  | AtAdd1 => set_callerPc AtGo1 (set_wg (wg s + 1) s)
  | AtGo1 => set_callerPc AtAdd2 (set_goroutinePc startPool AtShutdownAndWait s)
  | AtAdd2 => set_callerPc AtGo2 (set_wg (wg s + 1) s)
  | AtGo2 => set_callerPc AtWait (set_goroutinePc stopPool AtShutdownAndWait s)
  | AtWait => if decide (wg s = 0%Z) then set_callerPc AtReturn s else s
  | AtReturn => set_callerPc Returned (set_stErr None s)
  | Returned => s
  | Crashed => s
  end.

(** [drained q] is whether pool [q] finished its jobs within the deadline. *)
Definition stepGoroutine (drained : PoolName → bool) (q : PoolName)
    (s : StopState) : StopState :=
  match goroutinePc q s with
  | NotSpawned => s
  | AtShutdownAndWait =>
      set_goroutinePc q InShutdownAndWait
        (perform (emit (PoolShutdownCall q (waitTimeout s))) (callerPc s) s)
  | InShutdownAndWait =>
      set_goroutinePc q AtDone
        (perform
           (modify (λ m, set_pool q (task.ShutdownAndWait (poolOf q m) (drained q)) m);;
            emit (PoolShutdownReturn q (drained q)))
           (callerPc s) s)
  | AtDone => set_goroutinePc q Finished (set_wg (wg s - 1) s)
  | Finished => s
  end.

Definition step (stopType : StopType) (drained : PoolName → bool)
    (t : Thread) (s : StopState) : StopState :=
  match t with
  | Caller => stepCaller stopType s
  | Goroutine q => stepGoroutine drained q s
  end.

Definition enter (m : Manager) : StopState :=
  {| callerPc := AtSelectTimeout; startPc := NotSpawned; stopPc := NotSpawned;
     waitTimeout := 0%Z; wg := 0%Z; stErr := None;
     stManager := m; stTrace := [] |}.

(** The state [RequestStop(stopType)] has reached on manager [m] after the
    threads moved as [schedule] says. *)
Definition RequestStop (stopType : StopType) (drained : PoolName → bool)
    (schedule : list Thread) (m : Manager) : StopState :=
  foldl (λ s t, step stopType drained t s) (enter m) schedule.

(** What the call has returned, if it has. *)
Definition returned (s : StopState) : option error :=
  match callerPc s with
  | Returned => Some (stErr s)
  | _ => None
  end.

(** A schedule that lets every thread finish from wherever it stands. *)
Definition completion : list Thread :=
  replicate 6 Caller ++ replicate 3 (Goroutine startPool)
    ++ replicate 3 (Goroutine stopPool) ++ replicate 2 Caller.

(** *** coreplugin.go: GetInstance, GetRegisteredPlugins
    [GetInstance] reads the package-level [singletonInstance]. *)
Definition GetInstance (singletonInstance : option Manager)
    : option Manager * error :=
  match singletonInstance with
  | None => (None, Some "lrpm isn't initialized yet")
  | Some m => (Some m, None)
  end.

Definition GetRegisteredPlugins (m : Manager)
    : gmap string managerContracts.Plugin :=
  registeredPlugins m.
End manager.

(** ** package agent/framework/plugin *)
Module plugin.
(** A value of the interface [T], identified by the object behind it. *)
Definition T := nat.

(** [PluginRegistry] is [map[string]T]; the registries built here come from
    map literals and are never the nil map. *)
Abbreviation PluginRegistry := (gmap string T).

(** The package-level pointers [registeredExecuters] and
    [registeredLongRunningPlugins]; [None] is the nil pointer. *)
Record Catalog := {
  registeredExecuters : option PluginRegistry;
  registeredLongRunningPlugins : option PluginRegistry;
}.

Definition unloaded : Catalog :=
  {| registeredExecuters := None; registeredLongRunningPlugins := None |}.

(** What the code outside this file answers during one load: the plugin
    constructors, the plugin names, and [loadPlatformDependentPlugins], which
    lives in a per-platform file of the package. *)
Record Constructors := {
  lrpminvoker_NewPlugin : T * error;
  runcommand_Name : string;
  runcommand_NewPlugin : T * error;
  updatessmagent_Name : string;
  updatessmagent_NewPlugin : T * error;
  loadPlatformDependentPlugins : PluginRegistry;
}.

Inductive Event :=
| Errorf (format : string)
| CallLoadWorkerPlugins
| CallLoadLongRunningPlugins.

#[global] Instance Event_eq_dec : EqDecision Event.
Proof. solve_decision. Defined.

Definition isLoaded (c : Catalog) : bool :=
  match registeredExecuters c with
  | Some _ => true
  | None => false
  end.

Definition cache (workerPlugins longRunningPlugins : PluginRegistry)
    (_ : Catalog) : Catalog :=
  {| registeredExecuters := Some workerPlugins;
     registeredLongRunningPlugins := Some longRunningPlugins |}.

(** [*registeredExecuters]: dereferencing the nil pointer panics, which is
    the [None] result. *)
Definition getCachedWorkerPlugins (c : Catalog) : option PluginRegistry :=
  registeredExecuters c.

Definition getCachedLongRunningPlugins (c : Catalog) : option PluginRegistry :=
  registeredLongRunningPlugins c.

Definition loadLongRunningPlugins (env : Constructors)
    : PluginRegistry * list Event :=
  let longRunningPlugins : PluginRegistry := ∅ in
  let '(handler, err) := lrpminvoker_NewPlugin env in
  match err with
  | Some _ =>
      (longRunningPlugins,
       [Errorf "Failed to load lrpminvoker that will handle all long running plugins - %v"])
  | None =>
      let cloudwatchPluginName := "aws:cloudWatch" in
      (<[cloudwatchPluginName := handler]> longRunningPlugins, [])
  end.

Definition loadPlatformIndependentPlugins (env : Constructors)
    : PluginRegistry * list Event :=
  let workerPlugins : PluginRegistry := ∅ in
  let runcommandPluginName := runcommand_Name env in
  let '(runcommandPlugin, err) := runcommand_NewPlugin env in
  let '(workerPlugins, log1) :=
    match err with
    | Some _ => (workerPlugins, [Errorf "failed to create plugin %s %v"])
    | None => (<[runcommandPluginName := runcommandPlugin]> workerPlugins, [])
    end in
  let updateAgentPluginName := updatessmagent_Name env in
  let '(updateAgentPlugin, err) := updatessmagent_NewPlugin env in
  let '(workerPlugins, log2) :=
    match err with
    | Some _ => (workerPlugins, [Errorf "failed to create plugin %s %v"])
    | None => (<[updateAgentPluginName := updateAgentPlugin]> workerPlugins, [])
    end in
  (workerPlugins, log1 ++ log2).

(** [for key, value := range src { dst[key] = value }] *)
Definition copyInto (src dst : PluginRegistry) : PluginRegistry :=
  map_fold (λ key value acc, <[key := value]> acc) dst src.

Definition loadWorkerPlugins (env : Constructors)
    : PluginRegistry * list Event :=
  let workerPlugins : PluginRegistry := ∅ in
  let '(independent, log) := loadPlatformIndependentPlugins env in
  let workerPlugins := copyInto independent workerPlugins in
  let workerPlugins := copyInto (loadPlatformDependentPlugins env) workerPlugins in
  (workerPlugins, log).

(** The body shared by both accessors:
    [if !isLoaded() { cache(loadWorkerPlugins(ctx), loadLongRunningPlugins(ctx)) }] *)
Definition ensureLoaded (env : Constructors) (c : Catalog)
    : Catalog * list Event :=
  if negb (isLoaded c) then
    let '(workerPlugins, log1) := loadWorkerPlugins env in
    let '(longRunningPlugins, log2) := loadLongRunningPlugins env in
    (cache workerPlugins longRunningPlugins c,
     CallLoadWorkerPlugins :: log1 ++ CallLoadLongRunningPlugins :: log2)
  else (c, []).

Definition RegisteredWorkerPlugins (env : Constructors) (c : Catalog)
    : option PluginRegistry * Catalog * list Event :=
  let '(c', evs) := ensureLoaded env c in
  (getCachedWorkerPlugins c', c', evs).

Definition RegisteredLongRunningPlugins (env : Constructors) (c : Catalog)
    : option PluginRegistry * Catalog * list Event :=
  let '(c', evs) := ensureLoaded env c in
  (getCachedLongRunningPlugins c', c', evs).

(** A caller picks one of the two accessors. *)
Inductive Accessor := Worker | LongRunning.

Definition call (a : Accessor) (env : Constructors) (c : Catalog)
    : option PluginRegistry * Catalog * list Event :=
  match a with
  | Worker => RegisteredWorkerPlugins env c
  | LongRunning => RegisteredLongRunningPlugins env c
  end.

(** A sequence of accessor calls, each with the constructors' answers it
    would get if it loaded: the results in order, the final catalog, and
    all events. *)
Fixpoint calls (cs : list (Accessor * Constructors)) (c : Catalog)
    : list (option PluginRegistry) * Catalog * list Event :=
  match cs with
  | [] => ([], c, [])
  | (a, env) :: rest =>
      let '(r, c1, e1) := call a env c in
      let '(rs, c2, e2) := calls rest c1 in
      (r :: rs, c2, e1 ++ e2)
  end.

(** How many times the two load functions were entered. *)
Definition loads (evs : list Event) : nat * nat :=
  (length (filter (λ e, e = CallLoadWorkerPlugins) evs),
   length (filter (λ e, e = CallLoadLongRunningPlugins) evs)).
End plugin.

(** ** Vocabulary of the statements *)
Module scenario.
Import manager contracts.

(** A name the revival loop can start: it is registered and its handler is
    not nil. *)
Definition startable (regs : gmap string managerContracts.Plugin)
    (n : string) : Prop :=
  ∃ p h, regs !! n = Some p ∧ managerContracts.Handler p = Some h.

#[global] Instance startable_dec regs n : Decision (startable regs n).
Proof.
  unfold startable.
  destruct (regs !! n) as [p|] eqn:Hp.
  - destruct (managerContracts.Handler p) as [h|] eqn:Hh.
    + left. eauto.
    + right. intros (p' & h' & Hp' & Hh'). congruence.
  - right. intros (p' & h' & Hp' & Hh'). congruence.
Defined.

(** The direct [Start] calls the revival loop makes for the names in
    [order]: the handler and the configuration of the registered plugin. *)
Definition startCalls (regs : gmap string managerContracts.Plugin)
    (order : list string)
    : list (managerContracts.LongRunningPlugin * string) :=
  omap (λ n, p ← regs !! n;
             h ← managerContracts.Handler p;
             Some (h, managerContracts.Configuration (managerContracts.Info p)))
       order.

(** The revival branch of [Execute], lines 145-163: what runs between a
    successful read and the scheduler registration. *)
Definition revival (running : GoMap managerContracts.PluginInfo)
    (order : list string) : M unit :=
  if bool_decide (0 < len running) then for_range order revive
  else logf Info "there aren't any long running plugin to execute".

(** The names the health check must restart: registered, handler present,
    and [IsRunning] answering false. *)
Definition needsStart (regs : gmap string managerContracts.Plugin)
    (isRunning : managerContracts.LongRunningPlugin → bool)
    (n : string) : Prop :=
  ∃ p h, regs !! n = Some p ∧ managerContracts.Handler p = Some h ∧
         isRunning h = false.

#[global] Instance needsStart_dec regs isRunning n :
  Decision (needsStart regs isRunning n).
Proof.
  unfold needsStart.
  destruct (regs !! n) as [p|] eqn:Hp.
  - destruct (managerContracts.Handler p) as [h|] eqn:Hh.
    + destruct (isRunning h) eqn:Hr.
      * right. intros (p' & h' & Hp' & Hh' & Hr'). congruence.
      * left. eauto.
    + right. intros (p' & h' & Hp' & Hh' & Hr'). congruence.
  - right. intros (p' & h' & Hp' & Hh' & Hr'). congruence.
Defined.

(** Every registered plugin carries a handler, as [RegisteredPlugins]
    builds them. *)
Definition handlers_present (regs : gmap string managerContracts.Plugin)
    : Prop :=
  map_Forall (λ _ p, is_Some (managerContracts.Handler p)) regs.

(** What one health check leaves untouched. *)
Definition same_bookkeeping (m m' : Manager) : Prop :=
  registeredPlugins m' = registeredPlugins m ∧
  runningPlugins m' = runningPlugins m ∧
  stopPlugin m' = stopPlugin m ∧
  managingLifeCycleJob m' = managingLifeCycleJob m.

(** Every submission of a trace goes to the start pool, under the name of
    a registered plugin, and defers that plugin's [Start]. *)
Definition submits_registered_starts
    (regs : gmap string managerContracts.Plugin) (tr : list Event) : Prop :=
  ∀ q n w a, PoolSubmit q n w a ∈ tr →
    q = startPool ∧ ∃ p, regs !! n = Some p ∧ w = startJob p.

(** What [stopLifeCycleManagementJob] sends. *)
Definition quitEvents (m : Manager) : list Event :=
  match managingLifeCycleJob m with
  | Some job => [JobQuitSend job]
  | None => []
  end.

(** Sample values: the cloudwatch handler object, a persisted plugin
    record, the manager [EnsureInitialization] builds when
    [cloudwatch.NewPlugin] succeeds, and a scheduler job. *)
Definition cloudwatchHandler : managerContracts.LongRunningPlugin := 7.

Definition persistedInfo (name : string) : managerContracts.PluginInfo :=
  {| managerContracts.Name := name;
     managerContracts.Configuration := "{}";
     managerContracts.State := "" |}.

Definition freshManager : Manager :=
  default
    {| startPlugin := task.emptyPool; stopPlugin := task.emptyPool;
       runningPlugins := None; registeredPlugins := ∅;
       managingLifeCycleJob := None |}
    (EnsureInitialization (cloudwatchHandler, None) None).

Definition persistedCloudwatch : GoMap managerContracts.PluginInfo :=
  Some {[ "aws:cloudWatch" := persistedInfo "aws:cloudWatch" ]}.

Definition persistedUnknown : GoMap managerContracts.PluginInfo :=
  Some {[ "unknown:plugin" := persistedInfo "unknown:plugin" ]}.

Definition lifeCycleJob : SchedulerJob := 3.
(** The caller is past [m.stopLifeCycleManagementJob()]. *)
Definition stopJobDone (pc : CallerPc) : bool :=
  match pc with
  | AtSelectTimeout | AtStopJob | Crashed => false
  | _ => true
  end.

(** The caller is past the [go] statement of the goroutine for [q]. *)
Definition spawned (q : PoolName) (pc : CallerPc) : bool :=
  match q, pc with
  | startPool, (AtAdd2 | AtGo2 | AtWait | AtReturn | Returned) => true
  | stopPool, (AtWait | AtReturn | Returned) => true
  | _, _ => false
  end.

(** The [wg.Add(1)] calls the caller has made. *)
Definition adds (pc : CallerPc) : Z :=
  match pc with
  | AtSelectTimeout | AtStopJob | AtAdd1 | Crashed => 0
  | AtGo1 | AtAdd2 => 1
  | _ => 2
  end.

Definition finished (pc : GoroutinePc) : Z :=
  match pc with
  | Finished => 1
  | _ => 0
  end.

Definition shutdownReturned (pc : GoroutinePc) : bool :=
  match pc with
  | AtDone | Finished => true
  | _ => false
  end.

(** The pool a shutdown event is about. *)
Definition eventPool (e : Event) : option PoolName :=
  match e with
  | PoolShutdownCall q _ | PoolShutdownReturn q _ => Some q
  | _ => None
  end.

Definition poolTrace (q : PoolName) (tr : list Event) : list Event :=
  filter (λ e, eventPool e = Some q) tr.

(** The events the goroutine for [q] has produced when it stands at [pc]. *)
Definition goroutineEvents (q : PoolName) (pc : GoroutinePc)
    (timeout : time.Duration) (drained : bool) : list Event :=
  match pc with
  | NotSpawned | AtShutdownAndWait => []
  | InShutdownAndWait => [PoolShutdownCall q timeout]
  | AtDone | Finished =>
      [PoolShutdownCall q timeout; PoolShutdownReturn q drained]
  end.

Definition isNotSpawned (pc : GoroutinePc) : bool :=
  match pc with
  | NotSpawned => true
  | _ => false
  end.

Definition isFinished (pc : GoroutinePc) : bool :=
  match pc with
  | Finished => true
  | _ => false
  end.

(** Program counters that can occur together: a goroutine exists exactly
    when the caller is past its [go] statement, and the caller is past
    [wg.Wait()] only when both goroutines are finished. *)
Definition pcs_ok (c : CallerPc) (sp pp : GoroutinePc) : bool :=
  match c with
  | Crashed => false
  | AtReturn | Returned => isFinished sp && isFinished pp
  | _ =>
      bool_decide (spawned startPool c = negb (isNotSpawned sp))
      && bool_decide (spawned stopPool c = negb (isNotSpawned pp))
  end.

(** Control state reachable in [RequestStop]. *)
Definition control_ok (stopType : StopType) (s : StopState) : Prop :=
  pcs_ok (callerPc s) (startPc s) (stopPc s) = true ∧
  wg s = (adds (callerPc s) - finished (startPc s) - finished (stopPc s))%Z ∧
  (callerPc s ≠ AtSelectTimeout → waitTimeout s = selectTimeout stopType) ∧
  stErr s = None.

(** Manager and trace reachable in [RequestStop] entered on [m0]. *)
Definition data_ok (stopType : StopType) (drained : PoolName → bool)
    (m0 : Manager) (s : StopState) : Prop :=
  registeredPlugins (stManager s) = registeredPlugins m0 ∧
  runningPlugins (stManager s) = runningPlugins m0 ∧
  managingLifeCycleJob (stManager s) = managingLifeCycleJob m0 ∧
  (∀ q, poolOf q (stManager s) =
        if shutdownReturned (goroutinePc q s)
        then task.ShutdownAndWait (poolOf q m0) (drained q)
        else poolOf q m0) ∧
  ∃ pools,
    stTrace s = (if stopJobDone (callerPc s) then quitEvents m0 else []) ++ pools ∧
    Forall (λ e, is_Some (eventPool e)) pools ∧
    ∀ q, poolTrace q pools =
         goroutineEvents q (goroutinePc q s) (selectTimeout stopType) (drained q).
End scenario.


(** ** Vocabulary of the catalog statements *)
Module catalog.
Import plugin.

(** What a constructor call contributes to a registry: the plugin when the
    error is nil, nothing otherwise. *)
Definition constructed {A} (r : A * error) : option A :=
  match r.2 with
  | None => Some r.1
  | Some _ => None
  end.

(** The registry an accessor serves after a load under [env]. *)
Definition loaded (a : Accessor) (env : Constructors) : PluginRegistry :=
  match a with
  | Worker => (loadWorkerPlugins env).1
  | LongRunning => (loadLongRunningPlugins env).1
  end.

Definition served (a : Accessor) (c : Catalog) : option PluginRegistry :=
  match a with
  | Worker => registeredExecuters c
  | LongRunning => registeredLongRunningPlugins c
  end.

(** The cloudwatch entry [manager.RegisteredPlugins] registers. *)
Definition cloudwatchPlugin (handler : managerContracts.LongRunningPlugin)
    : managerContracts.Plugin :=
  {| managerContracts.Info :=
       {| managerContracts.Name := "aws:cloudWatch";
          managerContracts.Configuration := "";
          managerContracts.State := "" |};
     managerContracts.Handler := Some handler |}.

(** Sample constructor answers: every constructor succeeds but the one of
    runcommand. *)
Definition runcommandFails : Constructors :=
  {| lrpminvoker_NewPlugin := (1, None);
     runcommand_Name := "aws:runShellScript";
     runcommand_NewPlugin := (0, Some "no shell");
     updatessmagent_Name := "aws:updateSsmAgent";
     updatessmagent_NewPlugin := (3, None);
     loadPlatformDependentPlugins := ∅ |}.
End catalog.

(** ** Vocabulary of the lifecycle statements *)
Module observations.
Import manager.

(** The handlers asked [IsRunning], in order. *)
Definition isRunningChecks (tr : list Event)
    : list managerContracts.LongRunningPlugin :=
  omap (λ e, match e with
             | HandlerIsRunning h _ => Some h
             | _ => None
             end) tr.

(** The intervals, in minutes, the scheduler was asked for, in order. *)
Definition scheduled (tr : list Event) : list Z :=
  omap (λ e, match e with
             | SchedulerEveryMinutesRun minutes _ => Some minutes
             | _ => None
             end) tr.

(** The jobs whose [Quit] channel was sent on, in order. *)
Definition quitSends (tr : list Event) : list SchedulerJob :=
  omap (λ e, match e with
             | JobQuitSend job => Some job
             | _ => None
             end) tr.

(** The handlers of the names of [order] that are registered. *)
Definition registeredHandlers (regs : gmap string managerContracts.Plugin)
    (order : list string) : list managerContracts.LongRunningPlugin :=
  omap (λ n, p ← regs !! n; managerContracts.Handler p) order.

(** [EnsureInitialization] called once per element of [answers], each call
    with what [cloudwatch.NewPlugin] would answer then. *)
Definition initializations
    (answers : list (managerContracts.LongRunningPlugin * error))
    (singletonInstance : option Manager) : option Manager :=
  foldl (λ s cw, EnsureInitialization cw s) singletonInstance answers.

(** A schedule in which both goroutines have called [ShutdownAndWait] before
    either call returns. *)
Definition overlapping : list Thread :=
  replicate 6 Caller
    ++ [Goroutine startPool; Goroutine stopPool;
        Goroutine stopPool; Goroutine startPool;
        Goroutine stopPool; Goroutine startPool; Caller; Caller].

(** The [Errorf] calls among catalog events, and the constructors of [env]
    that answered an error. *)
Definition errorLogs (evs : list plugin.Event) : list string :=
  omap (λ e, match e with
             | plugin.Errorf format => Some format
             | _ => None
             end) evs.

Definition failed {A} (r : A * error) : nat :=
  match r.2 with
  | Some _ => 1
  | None => 0
  end.

(** Sample values: a persisted set naming cloudwatch and an unknown plugin. *)
Definition persistedMixed : GoMap managerContracts.PluginInfo :=
  Some (<[ "unknown:plugin" := scenario.persistedInfo "unknown:plugin" ]>
          {[ "aws:cloudWatch" := scenario.persistedInfo "aws:cloudWatch" ]}).
End observations.

(** * Properties *)

(** ** Startup: [Manager.Execute] *)
Section GoMapFacts.
Context {V : Type}.
Implicit Types (m : GoMap V) (order : list string).

Lemma keys_NoDup m : NoDup (keys m).
Proof.
  destruct m as [g|]; simpl; [apply NoDup_fst_map_to_list|constructor].
Qed.

Lemma elem_of_keys m k : k ∈ keys m ↔ has_key m k = true.
Proof.
  destruct m as [g|]; simpl.
  - rewrite bool_decide_eq_true, list_elem_of_fmap. split.
    + intros ([k' v] & -> & Hin). apply elem_of_map_to_list in Hin. eauto.
    + intros [v Hv]. exists (k, v). split; [done|].
      by apply elem_of_map_to_list.
  - split; [by intros ?%not_elem_of_nil|done].
Qed.

Lemma len_keys m : len m = length (keys m).
Proof.
  destruct m as [g|]; simpl; [|done].
  by rewrite length_fmap, length_map_to_list.
Qed.

Lemma range_order_NoDup m order : range_order m order → NoDup order.
Proof. intros Hp. unfold range_order in Hp. rewrite Hp. apply keys_NoDup. Qed.

Lemma range_order_elem m order k :
  range_order m order → k ∈ order ↔ has_key m k = true.
Proof. intros Hp. unfold range_order in Hp. rewrite Hp. apply elem_of_keys. Qed.

Lemma range_order_empty m order :
  range_order m order → len m = 0 → order = [].
Proof.
  intros Hp Hl. unfold range_order in Hp. rewrite len_keys in Hl.
  apply Permutation_length in Hp. apply nil_length_inv. lia.
Qed.
End GoMapFacts.

Section Execute.
Import manager scenario.

Lemma revive_startable m n :
  startable (registeredPlugins m) n →
  ∃ h c, startCalls (registeredPlugins m) [n] = [(h, c)] ∧
    revive n m = Returns tt m
      [Logf Info "Detected %s as a previously executing long running plugin. Starting that plugin again";
       HandlerStart h c ""].
Proof.
  intros (p & h & Hp & Hh).
  exists h, (managerContracts.Configuration (managerContracts.Info p)).
  unfold startCalls, revive, bind, get, logf, emit, callStart. simpl.
  rewrite Hp. simpl. rewrite Hh. simpl. done.
Qed.

Lemma revive_not_startable m n :
  ¬ startable (registeredPlugins m) n →
  revive n m = Panics m
    [Logf Info "Detected %s as a previously executing long running plugin. Starting that plugin again"].
Proof.
  intros Hn. unfold revive, bind, get, logf, emit, callStart. simpl.
  destruct (registeredPlugins m !! n) as [p|] eqn:Hp; simpl.
  - destruct (managerContracts.Handler p) as [h|] eqn:Hh; simpl; [|done].
    exfalso. apply Hn. exists p, h. done.
  - done.
Qed.

Lemma for_range_cons k rest body m :
  for_range (k :: rest) body m =
  match body k m with
  | Returns _ m1 t1 =>
      match for_range rest body m1 with
      | Returns b m2 t2 => Returns b m2 (t1 ++ t2)
      | Panics m2 t2 => Panics m2 (t1 ++ t2)
      end
  | Panics m1 t1 => Panics m1 t1
  end.
Proof. reflexivity. Qed.

(** The revival loop neither touches the manager nor submits to a pool,
    whatever its outcome. *)
Lemma revival_loop_frame order m :
  manager_of (for_range order revive m) = m ∧
  ∀ q, submitted q (trace_of (for_range order revive m)) = [].
Proof.
  induction order as [|n order IH]; [done|].
  rewrite for_range_cons.
  destruct (decide (startable (registeredPlugins m) n)) as [Hs|Hs].
  - destruct (revive_startable m n Hs) as (h & c & _ & ->).
    destruct IH as [IHm IHs].
    destruct (for_range order revive m) as [[] m' tr|m' tr]; simpl in *;
      (split; [done|intros q; apply IHs]).
  - rewrite (revive_not_startable m n Hs). simpl. done.
Qed.

Lemma revival_loop_returns order m :
  Forall (startable (registeredPlugins m)) order →
  ∃ tr, for_range order revive m = Returns tt m tr ∧
    started tr = startCalls (registeredPlugins m) order ∧
    length (started tr) = length order.
Proof.
  induction 1 as [|n order Hn _ IH].
  - exists []. done.
  - destruct IH as (tr & Hrun & Hst & Hlen).
    destruct (revive_startable m n Hn) as (h & c & Hc & Hrev).
    rewrite for_range_cons, Hrev, Hrun.
    eexists. split; [done|].
    change (startCalls (registeredPlugins m) (n :: order))
      with (startCalls (registeredPlugins m) ([n] ++ order)).
    unfold startCalls in *. rewrite omap_app, Hc. simpl.
    rewrite Hst. split; [done|]. simpl in Hlen. rewrite <- Hst. lia.
Qed.

Lemma revival_loop_panics order m :
  Exists (λ n, ¬ startable (registeredPlugins m) n) order →
  panicked (for_range order revive m) = true.
Proof.
  induction 1 as [n order Hn|n order _ IH]; rewrite for_range_cons.
  - rewrite (revive_not_startable m n Hn). done.
  - destruct (decide (startable (registeredPlugins m) n)) as [Hs|Hs].
    + destruct (revive_startable m n Hs) as (h & c & _ & ->).
      destruct (for_range order revive m); simpl in *; done.
    + rewrite (revive_not_startable m n Hs). done.
Qed.

Lemma Execute_read_ok running order sched m :
  Execute (running, None) order sched m =
  match revival running order (set_runningPlugins running m) with
  | Returns _ m2 t =>
      Returns sched.2 (set_managingLifeCycleJob sched.1 m2)
        ([Logf Info "starting long running plugin manager"; DataStoreRead]
           ++ t ++ [SchedulerEveryMinutesRun PollFrequencyMinutes sched.2]
           ++ match sched.2 with
              | Some _ => [Logf Error "unable to schedule long running plugins manager. %v"]
              | None => []
              end)
  | Panics m2 t =>
      Panics m2
        ([Logf Info "starting long running plugin manager"; DataStoreRead] ++ t)
  end.
Proof.
  unfold Execute, revival, bind, get, logf, emit, modify, ret. simpl.
  destruct (if bool_decide (0 < len running) then _ else _)
    as [[] m2 t|m2 t]; [|done].
  destruct sched as [job [e|]]; simpl; by rewrite ?app_nil_r.
Qed.

Lemma revival_frame running order m :
  manager_of (revival running order m) = m ∧
  ∀ q, submitted q (trace_of (revival running order m)) = [].
Proof.
  unfold revival. case_bool_decide; [apply revival_loop_frame|done].
Qed.

Lemma submitted_app q t1 t2 :
  submitted q (t1 ++ t2) = submitted q t1 ++ submitted q t2.
Proof. apply omap_app. Qed.

Lemma started_app t1 t2 : started (t1 ++ t2) = started t1 ++ started t2.
Proof. apply omap_app. Qed.

(** C9: when the persisted-state read fails, [Execute] has already stored
    the map the data store returned (nil included) in [runningPlugins]; it
    logs, returns the read error, and does nothing else. *)
Theorem Execute_read_failure_overwrites_running m running e order sched :
  Execute (running, Some e) order sched m =
  Returns (Some e) (set_runningPlugins running m)
    [Logf Info "starting long running plugin manager"; DataStoreRead;
     Logf Error "%s is exiting - unable to read from data store"]
  ∧ runningPlugins (manager_of (Execute (running, Some e) order sched m))
    = running.
Proof. done. Qed.

(** C3, as stated, fails: with a cloudwatch plugin revived and the scheduler
    answering an error, [Execute] does not return nil. *)
Lemma Execute_schedule_failure_not_nil :
  ¬ ∃ m' tr,
      Execute (persistedCloudwatch, None) ["aws:cloudWatch"]
        (None, Some "bad schedule") freshManager = Returns None m' tr.
Proof. intros (m' & tr & H). vm_compute in H. discriminate H. Qed.

(** C3, amended: when registering the reconciliation job fails after the
    revival loop went through, the failure is logged as the last action and
    [Execute] returns that scheduler error; the job handle is whatever the
    scheduler handed back. *)
Theorem Execute_schedule_failure_returned m running order job e :
  Forall (startable (registeredPlugins m)) order →
  ∃ m' tr,
    Execute (running, None) order (job, Some e) m =
    Returns (Some e) m'
      (tr ++ [SchedulerEveryMinutesRun PollFrequencyMinutes (Some e);
              Logf Error "unable to schedule long running plugins manager. %v"])
    ∧ managingLifeCycleJob m' = job.
Proof.
  intros Hall. rewrite Execute_read_ok. unfold revival.
  case_bool_decide.
  - destruct (revival_loop_returns order (set_runningPlugins running m) Hall)
      as (tr & -> & _).
    exists (set_managingLifeCycleJob job (set_runningPlugins running m)),
      ([Logf Info "starting long running plugin manager"; DataStoreRead] ++ tr).
    simpl. done.
  - exists (set_managingLifeCycleJob job (set_runningPlugins running m)),
      [Logf Info "starting long running plugin manager"; DataStoreRead;
       Logf Info "there aren't any long running plugin to execute"].
    done.
Qed.

Lemma Execute_schedule_failure_returned_witness :
  ∃ m' tr,
    Execute (persistedCloudwatch, None) ["aws:cloudWatch"]
      (None, Some "bad schedule") freshManager =
    Returns (Some "bad schedule") m'
      (tr ++ [SchedulerEveryMinutesRun PollFrequencyMinutes (Some "bad schedule");
              Logf Error "unable to schedule long running plugins manager. %v"])
    ∧ managingLifeCycleJob m' = None.
Proof.
  apply (Execute_schedule_failure_returned freshManager persistedCloudwatch
           ["aws:cloudWatch"] None "bad schedule").
  apply (bool_decide_unpack _). vm_compute. reflexivity.
Defined.

(** C2 fails on the code: whenever the persisted set holds a name that is
    not registered, [Execute] panics on the nil handler of the zero-valued
    plugin, in whatever order the set is ranged over. *)
Theorem Execute_unregistered_name_panics m running order sched n :
  range_order running order →
  has_key running n = true →
  registeredPlugins m !! n = None →
  panicked (Execute (running, None) order sched m) = true.
Proof.
  intros Hord Hn Hreg. rewrite Execute_read_ok. unfold revival.
  assert (Hin : n ∈ order) by by apply (range_order_elem running).
  rewrite bool_decide_eq_true_2.
  - pose proof (revival_loop_panics order (set_runningPlugins running m)) as Hp.
    destruct (for_range order revive (set_runningPlugins running m)); [|done].
    discriminate Hp. apply Exists_exists. exists n. split; [done|].
    intros (p & h & Hp' & _). simpl in Hp'. congruence.
  - rewrite len_keys. unfold range_order in Hord. rewrite <- Hord.
    destruct order; [by apply not_elem_of_nil in Hin|simpl; lia].
Qed.

Lemma Execute_unregistered_name_panics_witness :
  panicked (Execute (persistedUnknown, None) ["unknown:plugin"]
              (Some lifeCycleJob, None) freshManager) = true.
Proof.
  apply (Execute_unregistered_name_panics freshManager persistedUnknown
           ["unknown:plugin"] (Some lifeCycleJob, None) "unknown:plugin").
  - apply (bool_decide_unpack _). vm_compute. reflexivity.
  - vm_compute. reflexivity.
  - vm_compute. reflexivity.
Defined.

(** [Execute] hands nothing to a pool, whatever it is given and however it
    ends. *)
Lemma Execute_pools_untouched m read order sched :
  (∀ q, submitted q (trace_of (Execute read order sched m)) = []) ∧
  startPlugin (manager_of (Execute read order sched m)) = startPlugin m ∧
  stopPlugin (manager_of (Execute read order sched m)) = stopPlugin m.
Proof.
  destruct read as [running [e|]].
  - split; [intros q; done|]. split; done.
  - rewrite Execute_read_ok.
    pose proof (revival_frame running order (set_runningPlugins running m))
      as [Hm Hs].
    split; [|split].
    + intros q. specialize (Hs q).
      destruct (revival running order _) as [[] m2 t|m2 t]; simpl in *.
      * rewrite submitted_app, Hs. by destruct sched as [job [e|]].
      * done.
    + destruct (revival running order _); simpl in *; by subst.
    + destruct (revival running order _); simpl in *; by subst.
Qed.

(** C1 fails on the code: [Execute] submits no job, to either pool, for any
    input, and leaves both pools as they were; it calls [Start] in place.
    With "aws:cloudWatch" persisted and registered the whole run is the read,
    one direct [Start] of the cloudwatch handler and the scheduler
    registration: no submission under that name, where the claim asks for
    exactly one. *)
Theorem Execute_submits_no_start_job m read order sched :
  (∀ q, submitted q (trace_of (Execute read order sched m)) = []) ∧
  startPlugin (manager_of (Execute read order sched m)) = startPlugin m ∧
  stopPlugin (manager_of (Execute read order sched m)) = stopPlugin m ∧
  Execute (persistedCloudwatch, None) ["aws:cloudWatch"]
    (Some lifeCycleJob, None) freshManager
  = Returns None
      (set_managingLifeCycleJob (Some lifeCycleJob)
         (set_runningPlugins persistedCloudwatch freshManager))
      [Logf Info "starting long running plugin manager";
       DataStoreRead;
       Logf Info "Detected %s as a previously executing long running plugin. Starting that plugin again";
       HandlerStart cloudwatchHandler "" "";
       SchedulerEveryMinutesRun PollFrequencyMinutes None] ∧
  length (filter (λ j, j = "aws:cloudWatch")
            (submitted startPool
               (trace_of (Execute (persistedCloudwatch, None) ["aws:cloudWatch"]
                            (Some lifeCycleJob, None) freshManager)))) = 0.
Proof.
  destruct (Execute_pools_untouched m read order sched) as (Hs & Hp1 & Hp2).
  do 3 (split; [done|]). split; vm_compute; reflexivity.
Qed.
End Execute.

(** ** Reconciliation: [Manager.ensurePluginsAreRunning] *)
Section Reconciliation.
Import manager scenario.

Variable isRunning : managerContracts.LongRunningPlugin → bool.

Lemma submits_registered_starts_quiet regs tr :
  (∀ q n w a, PoolSubmit q n w a ∉ tr) → submits_registered_starts regs tr.
Proof. intros Hno q n w a Hin. by apply Hno in Hin. Qed.

Lemma healthcheck_spec m n :
  handlers_present (registeredPlugins m) →
  ∃ m' tr,
    healthcheck isRunning n m = Returns tt m' tr ∧
    same_bookkeeping m m' ∧
    submitted startPool tr
      = filter (needsStart (registeredPlugins m) isRunning) [n] ∧
    submitted stopPool tr = [] ∧
    started tr = [] ∧
    submits_registered_starts (registeredPlugins m) tr.
Proof.
  intros Hh. unfold healthcheck, bind, get. simpl.
  rewrite filter_cons, filter_nil.
  destruct (registeredPlugins m !! n) as [p|] eqn:Hp.
  - destruct (Hh n p Hp) as [h Hhp].
    unfold callIsRunning, bind, emit, ret. rewrite Hhp. simpl.
    destruct (isRunning h) eqn:Hr; simpl.
    + exists m, [HandlerIsRunning h true]. rewrite decide_False.
      * split; [done|]. split; [done|]. do 3 (split; [done|]).
        apply submits_registered_starts_quiet. intros q n' w a Hin.
        apply list_elem_of_singleton in Hin. discriminate Hin.
      * intros (p' & h' & Hp' & Hh' & Hr'). congruence.
    + unfold submitStart, logf, bind, get, emit, modify. simpl.
      destruct (task.Submit (startPlugin m) n (startJob p)) as [pool acc].
      simpl. eexists _, _. split; [reflexivity|]. rewrite decide_True.
      * split; [done|]. do 3 (split; [done|]).
        intros q n' w a Hin. rewrite !elem_of_cons in Hin.
        destruct Hin as [Hin|[Hin|[Hin|Hin]]]; try discriminate Hin.
        -- inversion Hin; subst. eauto.
        -- by apply not_elem_of_nil in Hin.
      * exists p, h. done.
  - exists m, []. rewrite decide_False.
    + split; [done|]. split; [done|]. do 3 (split; [done|]).
      apply submits_registered_starts_quiet. intros q n' w a Hin.
      by apply not_elem_of_nil in Hin.
    + intros (p' & h' & Hp' & _). congruence.
Qed.

Lemma healthcheck_loop order m :
  handlers_present (registeredPlugins m) →
  ∃ m' tr,
    for_range order (healthcheck isRunning) m = Returns tt m' tr ∧
    same_bookkeeping m m' ∧
    submitted startPool tr
      = filter (needsStart (registeredPlugins m) isRunning) order ∧
    submitted stopPool tr = [] ∧
    started tr = [] ∧
    submits_registered_starts (registeredPlugins m) tr.
Proof.
  revert m. induction order as [|n order IH]; intros m Hh.
  - exists m, []. split; [done|]. split; [done|]. do 3 (split; [done|]).
    apply submits_registered_starts_quiet. intros q n' w a Hin.
    by apply not_elem_of_nil in Hin.
  - destruct (healthcheck_spec m n Hh)
      as (m1 & t1 & Hrun1 & (Hreg1 & Hrp1 & Hsp1 & Hjob1) & Hsub1 & Hstop1 & Hst1 & Hwf1).
    assert (Hh1 : handlers_present (registeredPlugins m1)) by by rewrite Hreg1.
    destruct (IH m1 Hh1)
      as (m2 & t2 & Hrun2 & (Hreg2 & Hrp2 & Hsp2 & Hjob2) & Hsub2 & Hstop2 & Hst2 & Hwf2).
    exists m2, (t1 ++ t2). rewrite for_range_cons, Hrun1, Hrun2.
    split; [done|]. split.
    { unfold same_bookkeeping. by rewrite Hreg2, Hrp2, Hsp2, Hjob2. }
    rewrite !submitted_app, started_app, Hsub1, Hsub2, Hstop1, Hstop2, Hst1, Hst2.
    rewrite Hreg1. split.
    { change (n :: order) with ([n] ++ order). by rewrite filter_app. }
    split; [done|]. split; [done|].
    intros q n' w a Hin. apply elem_of_app in Hin as [Hin|Hin].
    + by apply (Hwf1 q n' w a).
    + rewrite <- Hreg1. by apply (Hwf2 q n' w a).
Qed.

Lemma submit_in_submitted q n w a tr :
  PoolSubmit q n w a ∈ tr → n ∈ submitted q tr.
Proof.
  intros Hin. unfold submitted. apply list_elem_of_omap.
  exists (PoolSubmit q n w a). split; [done|]. by rewrite decide_True.
Qed.

(** C4: [ensurePluginsAreRunning] submits to the start pool, under the
    plugin's name, exactly the running names that are registered and whose
    handler's [IsRunning] answers false, each once; every job it submits
    defers [Start] of that plugin's own handler, with the registered
    configuration and the empty orchestration directory; it submits nothing
    for a plugin whose [IsRunning] answers true or for a name outside the
    running set, and with an empty running set it only logs. *)
Theorem ensurePluginsAreRunning_submits_dead_plugins m order :
  range_order (runningPlugins m) order →
  handlers_present (registeredPlugins m) →
  ∃ m' tr,
    ensurePluginsAreRunning isRunning order m = Returns tt m' tr ∧
    submitted startPool tr
      = filter (needsStart (registeredPlugins m) isRunning) order ∧
    NoDup (submitted startPool tr) ∧
    (∀ n, n ∈ submitted startPool tr ↔
          has_key (runningPlugins m) n = true ∧
          needsStart (registeredPlugins m) isRunning n) ∧
    (∀ q n w a, PoolSubmit q n w a ∈ tr →
       q = startPool ∧
       ∃ p h,
         registeredPlugins m !! n = Some p ∧
         managerContracts.Handler p = Some h ∧
         isRunning h = false ∧
         task.jobHandler w = Some h ∧
         task.jobConfiguration w
         = managerContracts.Configuration (managerContracts.Info p) ∧
         task.jobOrchestrationDir w = "") ∧
    submitted stopPool tr = [] ∧
    started tr = [] ∧
    (len (runningPlugins m) = 0 →
     m' = m ∧
     tr = [Logf Info "There are no long running plugins currently getting executed - skipping their healthcheck"]).
Proof.
  intros Hord Hh. unfold ensurePluginsAreRunning, bind, get. simpl.
  case_bool_decide as Hlen.
  - destruct (healthcheck_loop order m Hh)
      as (m' & tr & -> & _ & Hsub & Hstop & Hst & Hwf).
    exists m', tr. simpl. split; [done|]. rewrite Hsub.
    split; [done|]. split.
    { apply NoDup_filter. by apply (range_order_NoDup (runningPlugins m)). }
    split.
    { intros n. rewrite list_elem_of_filter.
      rewrite (range_order_elem (runningPlugins m) order n Hord). tauto. }
    split.
    { intros q n w a Hin.
      destruct (Hwf q n w a Hin) as (-> & p & Hp & ->). split; [done|].
      pose proof (submit_in_submitted _ _ _ _ _ Hin) as Hn.
      rewrite Hsub in Hn.
      apply list_elem_of_filter in Hn as [(p' & h & Hp' & Hh' & Hr) _].
      rewrite Hp in Hp'. injection Hp' as <-.
      exists p, h. unfold startJob. simpl. by rewrite Hh'. }
    do 2 (split; [done|]). lia.
  - assert (order = []) as ->
      by (apply (range_order_empty (runningPlugins m)); [done|lia]).
    eexists _, _. simpl. split; [reflexivity|].
    rewrite filter_nil.
    split; [done|]. split; [constructor|]. split.
    { intros n. split; [by intros ?%not_elem_of_nil|].
      intros [Hk _]. apply (range_order_elem (runningPlugins m) [] n Hord) in Hk.
      by apply not_elem_of_nil in Hk. }
    split.
    { intros q n w a Hin. apply list_elem_of_singleton in Hin. discriminate Hin. }
    done.
Qed.

(** The catalog [EnsureInitialization] installs satisfies the assumption on
    handlers, whatever the cloudwatch constructor answered. *)
Lemma RegisteredPlugins_handlers_present newCloudwatch :
  handlers_present (RegisteredPlugins newCloudwatch).
Proof.
  destruct newCloudwatch as [handler [e|]]; unfold handlers_present; simpl.
  - apply map_Forall_empty.
  - apply map_Forall_insert_2; [simpl; eauto|apply map_Forall_empty].
Qed.
End Reconciliation.

(** After [Execute] revived cloudwatch and the plugin died, one reconciliation
    pass submits one job under its name. *)
Lemma ensurePluginsAreRunning_submits_dead_plugins_witness :
  ∃ m' tr,
    manager.ensurePluginsAreRunning (λ _, false) ["aws:cloudWatch"]
      (manager.set_runningPlugins scenario.persistedCloudwatch
         scenario.freshManager) = manager.Returns tt m' tr ∧
    manager.submitted manager.startPool tr = ["aws:cloudWatch"] ∧
    ∀ q n w a, manager.PoolSubmit q n w a ∈ tr →
      w = {| task.jobHandler := Some scenario.cloudwatchHandler;
             task.jobConfiguration := "";
             task.jobOrchestrationDir := "" |}.
Proof.
  destruct (ensurePluginsAreRunning_submits_dead_plugins (λ _, false)
              (manager.set_runningPlugins scenario.persistedCloudwatch
                 scenario.freshManager) ["aws:cloudWatch"])
    as (m' & tr & Heq & Hsub & _ & _ & Hjob & _).
  - apply (bool_decide_unpack _). vm_compute. reflexivity.
  - apply (bool_decide_unpack _). vm_compute. reflexivity.
  - exists m', tr. split; [exact Heq|]. split.
    + rewrite Hsub. vm_compute. reflexivity.
    + intros q n w a Hin.
      destruct (Hjob q n w a Hin) as (_ & p & h & Hp & Hh & _ & Hwh & Hwc & Hwd).
      change ((<["aws:cloudWatch"
                   := catalog.cloudwatchPlugin scenario.cloudwatchHandler]>
                 (∅ : gmap string managerContracts.Plugin)) !! n = Some p) in Hp.
      apply lookup_insert_Some in Hp as [[_ <-]|[_ Hp]];
        [|by rewrite lookup_empty in Hp].
      simpl in Hh, Hwc. injection Hh as <-.
      destruct w as [wh wc wd]. simpl in *. by subst.
Defined.

(** ** Graceful shutdown: [Manager.RequestStop] *)
Section RequestStop.
Import manager scenario contracts.

Variable stopType : StopType.
Variable drained : PoolName → bool.

Lemma control_ok_enter m : control_ok stopType (enter m).
Proof. unfold control_ok. simpl. done. Qed.

Lemma control_ok_step t s :
  control_ok stopType s → control_ok stopType (step stopType drained t s).
Proof.
  destruct s as [cpc spc ppc T w e m tr].
  unfold control_ok. simpl. intros (Hpc & Hwg & HT & He).
  destruct cpc, spc, ppc; try discriminate Hpc; clear Hpc;
    destruct t as [|[|]]; simpl in *;
    unfold stepCaller, stepGoroutine, perform, stopLifeCycleManagementJob,
      bind, get, modify, emit; simpl;
    try destruct (managingLifeCycleJob m);
    try destruct (decide (w = 0%Z)); simpl;
    first [exfalso; lia
          |split; [reflexivity|split; [lia|split; [try done; auto|done]]]].
Qed.

Lemma poolTrace_snoc q pools e :
  poolTrace q (pools ++ [e])
  = poolTrace q pools ++ (if decide (eventPool e = Some q) then [e] else []).
Proof.
  unfold poolTrace. rewrite filter_app, filter_cons, filter_nil. done.
Qed.

Lemma shutdown_events_nil pools :
  Forall (λ e, is_Some (eventPool e)) pools →
  (∀ q, poolTrace q pools = []) → pools = [].
Proof.
  intros Hall Hproj. destruct pools as [|e pools]; [done|].
  apply Forall_cons in Hall as [[q Hq] _].
  specialize (Hproj q). unfold poolTrace in Hproj.
  rewrite filter_cons, decide_True in Hproj by done. done.
Qed.

Lemma data_ok_enter m : data_ok stopType drained m (enter m).
Proof.
  unfold data_ok. simpl. do 3 (split; [done|]). split; [by intros []|].
  exists []. split; [done|]. split; [constructor|]. by intros [].
Qed.

Lemma data_ok_stepCaller m0 s :
  control_ok stopType s →
  data_ok stopType drained m0 s →
  data_ok stopType drained m0 (stepCaller stopType s).
Proof.
  destruct s as [cpc spc ppc T w e m tr].
  unfold control_ok, data_ok. simpl.
  intros (Hpc & Hwg & HT & He) (Hreg & Hrun & Hjob & Hpool & pools & Htr & Hall & Hproj).
  pose proof (Hpool startPool) as Hpool1. pose proof (Hpool stopPool) as Hpool2.
  pose proof (Hproj startPool) as Hproj1. pose proof (Hproj stopPool) as Hproj2.
  simpl in *.
  destruct cpc; try discriminate Hpc; unfold stepCaller; simpl.
  - (* AtSelectTimeout *)
    do 3 (split; [done|]). split; [done|]. by exists pools.
  - (* AtStopJob *)
    destruct spc, ppc; try discriminate Hpc.
    assert (pools = []) as ->
      by (apply shutdown_events_nil; [done|by intros []]).
    unfold perform, stopLifeCycleManagementJob, bind, get, emit, quitEvents.
    simpl. rewrite <- Hjob. simpl in Htr. subst tr.
    destruct (managingLifeCycleJob m) eqn:Hj; simpl;
      (do 3 (split; [done|]); split; [done|]; exists []; done).
  - do 3 (split; [done|]). split; [done|]. by exists pools.
  - destruct spc; try discriminate Hpc.
    do 3 (split; [done|]). split; [by intros []|].
    exists pools. split; [done|]. split; [done|]. by intros [].
  - do 3 (split; [done|]). split; [done|]. by exists pools.
  - destruct ppc; try (by destruct spc; discriminate Hpc).
    do 3 (split; [done|]). split; [by intros []|].
    exists pools. split; [done|]. split; [done|]. by intros [].
  - destruct (decide (w = 0%Z)); simpl;
      (do 3 (split; [done|]); split; [done|]; by exists pools).
  - do 3 (split; [done|]). split; [done|]. by exists pools.
  - do 3 (split; [done|]). split; [done|]. by exists pools.
Qed.

Lemma data_ok_stepGoroutine m0 q s :
  control_ok stopType s →
  data_ok stopType drained m0 s →
  data_ok stopType drained m0 (stepGoroutine drained q s).
Proof.
  destruct s as [cpc spc ppc T w e m tr].
  unfold control_ok, data_ok. simpl.
  intros (Hpc & Hwg & HT & He) (Hreg & Hrun & Hjob & Hpool & pools & Htr & Hall & Hproj).
  pose proof (Hpool startPool) as Hpool1. pose proof (Hpool stopPool) as Hpool2.
  pose proof (Hproj startPool) as Hproj1. pose proof (Hproj stopPool) as Hproj2.
  assert (HT' : goroutinePc q
                  {| callerPc := cpc; startPc := spc; stopPc := ppc;
                     waitTimeout := T; wg := w; stErr := e;
                     stManager := m; stTrace := tr |} ≠ NotSpawned →
                T = selectTimeout stopType).
  { intros Hq. apply HT. intros ->. destruct q, spc, ppc; done. }
  simpl in *. clear Hpool Hproj HT.
  unfold stepGoroutine, perform, bind, modify, emit.
  destruct q; simpl in *.
  - destruct spc; simpl.
    + do 3 (split; [done|]). split; [by intros []|]. exists pools.
      split; [done|]. split; [done|]. by intros [].
    + rewrite HT' by done.
      do 3 (split; [done|]). split; [by intros []|].
      exists (pools ++ [PoolShutdownCall startPool (selectTimeout stopType)]).
      split; [by rewrite Htr, app_assoc|].
      split; [apply Forall_app; split; [done|by repeat constructor]|].
      intros []; rewrite poolTrace_snoc; simpl.
      * by rewrite Hproj1.
      * by rewrite Hproj2, app_nil_r.
    + do 3 (split; [done|]). split.
      { intros []; simpl; [by rewrite Hpool1|done]. }
      exists (pools ++ [PoolShutdownReturn startPool (drained startPool)]).
      split; [by rewrite Htr, app_assoc|].
      split; [apply Forall_app; split; [done|by repeat constructor]|].
      intros []; rewrite poolTrace_snoc; simpl.
      * by rewrite Hproj1.
      * by rewrite Hproj2, app_nil_r.
    + do 3 (split; [done|]). split; [by intros []|]. exists pools.
      split; [done|]. split; [done|]. by intros [].
    + do 3 (split; [done|]). split; [by intros []|]. exists pools.
      split; [done|]. split; [done|]. by intros [].
  - destruct ppc; simpl.
    + do 3 (split; [done|]). split; [by intros []|]. exists pools.
      split; [done|]. split; [done|]. by intros [].
    + rewrite HT' by done.
      do 3 (split; [done|]). split; [by intros []|].
      exists (pools ++ [PoolShutdownCall stopPool (selectTimeout stopType)]).
      split; [by rewrite Htr, app_assoc|].
      split; [apply Forall_app; split; [done|by repeat constructor]|].
      intros []; rewrite poolTrace_snoc; simpl.
      * by rewrite Hproj1, app_nil_r.
      * by rewrite Hproj2.
    + do 3 (split; [done|]). split.
      { intros []; simpl; [done|by rewrite Hpool2]. }
      exists (pools ++ [PoolShutdownReturn stopPool (drained stopPool)]).
      split; [by rewrite Htr, app_assoc|].
      split; [apply Forall_app; split; [done|by repeat constructor]|].
      intros []; rewrite poolTrace_snoc; simpl.
      * by rewrite Hproj1, app_nil_r.
      * by rewrite Hproj2.
    + do 3 (split; [done|]). split; [by intros []|]. exists pools.
      split; [done|]. split; [done|]. by intros [].
    + do 3 (split; [done|]). split; [by intros []|]. exists pools.
      split; [done|]. split; [done|]. by intros [].
Qed.

Lemma run_ok m0 schedule s :
  control_ok stopType s →
  data_ok stopType drained m0 s →
  control_ok stopType (foldl (λ s t, step stopType drained t s) s schedule) ∧
  data_ok stopType drained m0
    (foldl (λ s t, step stopType drained t s) s schedule).
Proof.
  revert s. induction schedule as [|t schedule IH]; intros s Hc Hd; [done|].
  simpl. apply IH.
  - by apply control_ok_step.
  - destruct t as [|q]; simpl.
    + by apply data_ok_stepCaller.
    + by apply data_ok_stepGoroutine.
Qed.

Lemma RequestStop_ok schedule m :
  control_ok stopType (RequestStop stopType drained schedule m) ∧
  data_ok stopType drained m (RequestStop stopType drained schedule m).
Proof. apply run_ok; [apply control_ok_enter|apply data_ok_enter]. Qed.

(** From any reachable control state the completing schedule brings the
    caller to its return. *)
Lemma completion_returns s :
  control_ok stopType s →
  callerPc (foldl (λ s t, step stopType drained t s) s completion) = Returned.
Proof.
  destruct s as [cpc spc ppc T w e m tr].
  unfold control_ok. simpl. intros (Hpc & Hwg & _ & _).
  destruct m as [p1 p2 run regs [job|]];
    destruct cpc, spc, ppc; try discriminate Hpc; clear Hpc;
    simpl in Hwg; subst w; vm_compute; reflexivity.
Qed.

Lemma RequestStop_completion schedule m :
  returned (RequestStop stopType drained (schedule ++ completion) m) = Some None.
Proof.
  unfold RequestStop. rewrite foldl_app.
  destruct (RequestStop_ok schedule m) as [Hc _].
  pose proof (completion_returns _ Hc) as Hret.
  destruct (run_ok m completion _ Hc (proj2 (RequestStop_ok schedule m)))
    as [(_ & _ & _ & He) _].
  unfold RequestStop in *. unfold returned. by rewrite Hret, He.
Qed.

Lemma poolTrace_quitEvents q m : poolTrace q (quitEvents m) = [].
Proof. unfold quitEvents. by destruct (managingLifeCycleJob m). Qed.

(** Once the caller has returned, the trace holds, for each pool, the
    call of [ShutdownAndWait] with the selected deadline and its return. *)
Lemma returned_after_shutdowns schedule m q :
  callerPc (RequestStop stopType drained schedule m) = Returned →
  poolTrace q (stTrace (RequestStop stopType drained schedule m))
  = [PoolShutdownCall q (selectTimeout stopType);
     PoolShutdownReturn q (drained q)]
  ∧ task.accepting (poolOf q (stManager (RequestStop stopType drained schedule m)))
    = false.
Proof.
  intros Hret.
  destruct (RequestStop_ok schedule m)
    as [(Hpc & _) (_ & _ & _ & Hpool & pools & Htr & _ & Hproj)].
  rewrite Hret in Hpc. simpl in Hpc.
  apply andb_true_iff in Hpc as [Hs Hp].
  assert (Hfin : goroutinePc q (RequestStop stopType drained schedule m) = Finished).
  { destruct q; simpl.
    - by destruct (startPc _).
    - by destruct (stopPc _). }
  rewrite Htr, Hret. simpl. unfold poolTrace at 1.
  rewrite filter_app. fold (poolTrace q (quitEvents m)) (poolTrace q pools).
  rewrite poolTrace_quitEvents, Hproj, Hpool, Hfin. done.
Qed.

Lemma no_shutdown_before_stopJob schedule m pools :
  stopJobDone (callerPc (RequestStop stopType drained schedule m)) = false →
  Forall (λ e, is_Some (eventPool e)) pools →
  (∀ q, poolTrace q pools =
        goroutineEvents q
          (goroutinePc q (RequestStop stopType drained schedule m))
          (selectTimeout stopType) (drained q)) →
  pools = [].
Proof.
  intros Hnot Hall Hproj.
  destruct (RequestStop_ok schedule m) as [(Hpc & _) _].
  apply shutdown_events_nil; [done|]. intros q. rewrite Hproj.
  destruct (callerPc _); try discriminate Hnot; try discriminate Hpc;
    simpl in Hpc; apply andb_true_iff in Hpc as [Hs Hp];
    apply bool_decide_eq_true in Hs, Hp; simpl in Hs, Hp;
    destruct q; simpl.
  all: first [by destruct (startPc _)|by destruct (stopPc _)].
Qed.

Lemma no_quit_without_job schedule m job :
  managingLifeCycleJob m = None →
  JobQuitSend job ∉ stTrace (RequestStop stopType drained schedule m).
Proof.
  intros Hjob Hin.
  destruct (RequestStop_ok schedule m)
    as [_ (_ & _ & _ & _ & pools & Htr & Hall & _)].
  rewrite Htr in Hin. unfold quitEvents in Hin. rewrite Hjob in Hin.
  assert (Hin' : JobQuitSend job ∈ pools).
  { destruct (stopJobDone _); simpl in Hin; done. }
  rewrite Forall_forall in Hall. apply Hall in Hin' as [q Hq]. done.
Qed.

(** C5: [RequestStop] reports success unconditionally: whatever the stop
    type, whether or not the pools drained, and however the goroutines are
    scheduled, a call that has returned has returned nil, and the call does
    return once every thread has been given its turns. *)
Theorem RequestStop_returns_nil schedule m :
  (returned (RequestStop stopType drained schedule m) = None ∨
   returned (RequestStop stopType drained schedule m) = Some None) ∧
  returned (RequestStop stopType drained (schedule ++ completion) m) = Some None.
Proof.
  split; [|apply RequestStop_completion].
  destruct (RequestStop_ok schedule m) as [(_ & _ & _ & He) _].
  unfold returned. rewrite He. destruct (callerPc _); auto.
Qed.

(** C6: the deadline is 20 seconds for a soft stop and 4 seconds for a
    hard stop; the reconciliation job is cancelled before any pool shutdown
    starts; each goroutine calls [ShutdownAndWait] with the selected deadline
    on its pool; and the caller returns only after both calls have
    returned, which it does once every thread has been given its turns. *)
Theorem RequestStop_deadline_cancel_then_shutdown schedule m :
  selectTimeout StopTypeSoftStop = (20 * 1000000000)%Z ∧
  selectTimeout StopTypeHardStop = (4 * 1000000000)%Z ∧
  (∃ pools,
     stTrace (RequestStop stopType drained schedule m)
     = (if stopJobDone (callerPc (RequestStop stopType drained schedule m))
        then quitEvents m else []) ++ pools ∧
     (stopJobDone (callerPc (RequestStop stopType drained schedule m)) = false →
      pools = []) ∧
     Forall (λ e, is_Some (eventPool e)) pools ∧
     ∀ q, poolTrace q pools =
          goroutineEvents q
            (goroutinePc q (RequestStop stopType drained schedule m))
            (selectTimeout stopType) (drained q)) ∧
  (callerPc (RequestStop stopType drained schedule m) = Returned →
   ∀ q, poolTrace q (stTrace (RequestStop stopType drained schedule m))
        = [PoolShutdownCall q (selectTimeout stopType);
           PoolShutdownReturn q (drained q)]
        ∧ task.accepting
            (poolOf q (stManager (RequestStop stopType drained schedule m)))
          = false) ∧
  returned (RequestStop stopType drained (schedule ++ completion) m) = Some None.
Proof.
  split; [reflexivity|]. split; [reflexivity|]. split; [|split].
  - destruct (RequestStop_ok schedule m)
      as [_ (_ & _ & _ & _ & pools & Htr & Hall & Hproj)].
    exists pools. split; [done|]. split; [|done].
    intros Hnot. by apply (no_shutdown_before_stopJob schedule m).
  - intros Hret q. by apply returned_after_shutdowns.
  - apply RequestStop_completion.
Qed.

(** C10: with a nil reconciliation job handle, as on a manager that was
    never executed, [RequestStop] sends nothing on a quit channel and does
    not crash, and once every thread has been given its turns both pools
    are shut down and nil is returned. *)
Theorem RequestStop_nil_job_safe schedule m :
  managingLifeCycleJob m = None →
  callerPc (RequestStop stopType drained schedule m) ≠ Crashed ∧
  (∀ job, JobQuitSend job ∉ stTrace (RequestStop stopType drained schedule m)) ∧
  returned (RequestStop stopType drained (schedule ++ completion) m) = Some None ∧
  (∀ job, JobQuitSend job
          ∉ stTrace (RequestStop stopType drained (schedule ++ completion) m)) ∧
  ∀ q, poolTrace q
         (stTrace (RequestStop stopType drained (schedule ++ completion) m))
       = [PoolShutdownCall q (selectTimeout stopType);
          PoolShutdownReturn q (drained q)]
       ∧ task.accepting
           (poolOf q
              (stManager (RequestStop stopType drained (schedule ++ completion) m)))
         = false.
Proof.
  intros Hjob. split; [|split; [|split; [|split]]].
  - destruct (RequestStop_ok schedule m) as [(Hpc & _) _].
    intros Hc. rewrite Hc in Hpc. discriminate Hpc.
  - intros job. by apply no_quit_without_job.
  - apply RequestStop_completion.
  - intros job. by apply no_quit_without_job.
  - intros q. apply returned_after_shutdowns.
    pose proof (RequestStop_completion schedule m) as Hret.
    unfold returned in Hret. by destruct (callerPc _).
Qed.
End RequestStop.

(** A manager fresh from [EnsureInitialization] has no reconciliation job. *)
Lemma EnsureInitialization_no_job newCloudwatch m :
  manager.EnsureInitialization newCloudwatch None = Some m →
  manager.managingLifeCycleJob m = None.
Proof. intros [= <-]. reflexivity. Qed.

Lemma RequestStop_deadline_cancel_then_shutdown_witness :
  scenario.poolTrace manager.startPool
    (manager.stTrace
       (manager.RequestStop contracts.StopTypeSoftStop (λ _, false)
          manager.completion
          (manager.set_managingLifeCycleJob (Some scenario.lifeCycleJob)
             scenario.freshManager)))
  = [manager.PoolShutdownCall manager.startPool 20000000000%Z;
     manager.PoolShutdownReturn manager.startPool false] ∧
  scenario.poolTrace manager.stopPool
    (manager.stTrace
       (manager.RequestStop contracts.StopTypeSoftStop (λ _, false)
          manager.completion
          (manager.set_managingLifeCycleJob (Some scenario.lifeCycleJob)
             scenario.freshManager)))
  = [manager.PoolShutdownCall manager.stopPool 20000000000%Z;
     manager.PoolShutdownReturn manager.stopPool false].
Proof.
  destruct (RequestStop_deadline_cancel_then_shutdown
              contracts.StopTypeSoftStop (λ _, false) manager.completion
              (manager.set_managingLifeCycleJob (Some scenario.lifeCycleJob)
                 scenario.freshManager)) as (_ & _ & _ & Hret & _).
  split; apply Hret; vm_compute; reflexivity.
Defined.

Lemma RequestStop_nil_job_safe_witness :
  manager.returned
    (manager.RequestStop contracts.StopTypeHardStop (λ _, true)
       ([manager.Goroutine manager.stopPool; manager.Caller]
          ++ manager.completion) scenario.freshManager) = Some None.
Proof.
  destruct (RequestStop_nil_job_safe contracts.StopTypeHardStop (λ _, true)
              [manager.Goroutine manager.stopPool; manager.Caller]
              scenario.freshManager) as (_ & _ & Hret & _).
  - vm_compute. reflexivity.
  - exact Hret.
Defined.

(** ** Plugin catalog: the cached registries *)
Section Catalog.
Import plugin catalog.

Lemma copyInto_lookup (src dst : PluginRegistry) k :
  copyInto src dst !! k = (src ∪ dst) !! k.
Proof.
  unfold copyInto.
  apply (map_fold_weak_ind
           (λ r (m : PluginRegistry), r !! k = (m ∪ dst) !! k)).
  - by rewrite (left_id_L ∅ (∪)).
  - intros i x m r Hi IH. rewrite <- insert_union_l.
    rewrite !lookup_insert. case_decide; done.
Qed.

Lemma copyInto_union (src dst : PluginRegistry) : copyInto src dst = src ∪ dst.
Proof. apply map_eq. intros k. apply copyInto_lookup. Qed.

Lemma loadWorkerPlugins_union env :
  (loadWorkerPlugins env).1
  = loadPlatformDependentPlugins env ∪ (loadPlatformIndependentPlugins env).1.
Proof.
  unfold loadWorkerPlugins.
  destruct (loadPlatformIndependentPlugins env) as [independent log]. simpl.
  by rewrite !copyInto_union, (right_id_L ∅ (∪)).
Qed.

Lemma loadWorkerPlugins_log env :
  (loadWorkerPlugins env).2 = (loadPlatformIndependentPlugins env).2.
Proof.
  unfold loadWorkerPlugins.
  by destruct (loadPlatformIndependentPlugins env) as [independent log].
Qed.

Lemma loadPlatformIndependentPlugins_lookup env k :
  runcommand_Name env ≠ updatessmagent_Name env →
  (loadPlatformIndependentPlugins env).1 !! k =
  if decide (k = runcommand_Name env)
  then constructed (runcommand_NewPlugin env)
  else if decide (k = updatessmagent_Name env)
       then constructed (updatessmagent_NewPlugin env)
       else None.
Proof.
  intros Hne. unfold loadPlatformIndependentPlugins, constructed.
  destruct (runcommand_NewPlugin env) as [p1 [e1|]],
           (updatessmagent_NewPlugin env) as [p2 [e2|]]; simpl;
    rewrite ?lookup_insert, ?lookup_empty; repeat case_decide;
    congruence.
Qed.

Lemma load_logs_only_log env :
  loads (CallLoadWorkerPlugins :: (loadWorkerPlugins env).2
           ++ CallLoadLongRunningPlugins :: (loadLongRunningPlugins env).2)
  = (1, 1).
Proof.
  rewrite loadWorkerPlugins_log.
  unfold loadPlatformIndependentPlugins, loadLongRunningPlugins.
  destruct (runcommand_NewPlugin env) as [p1 [e1|]],
           (updatessmagent_NewPlugin env) as [p2 [e2|]],
           (lrpminvoker_NewPlugin env) as [p3 [e3|]]; reflexivity.
Qed.

Lemma call_unloaded a env :
  call a env unloaded =
  (Some (loaded a env),
   cache (loaded Worker env) (loaded LongRunning env) unloaded,
   CallLoadWorkerPlugins :: (loadWorkerPlugins env).2
     ++ CallLoadLongRunningPlugins :: (loadLongRunningPlugins env).2).
Proof.
  unfold call, RegisteredWorkerPlugins, RegisteredLongRunningPlugins,
    ensureLoaded, loaded. simpl.
  destruct (loadWorkerPlugins env) as [w log1],
           (loadLongRunningPlugins env) as [l log2].
  by destruct a.
Qed.

Lemma call_loaded a env c :
  isLoaded c = true → call a env c = (served a c, c, []).
Proof.
  intros Hl. unfold call, RegisteredWorkerPlugins,
    RegisteredLongRunningPlugins, ensureLoaded. rewrite Hl. by destruct a.
Qed.

Lemma calls_loaded cs c :
  isLoaded c = true →
  calls cs c = (map (λ ae, served ae.1 c) cs, c, []).
Proof.
  intros Hl. induction cs as [|[a env] cs IH]; [done|].
  simpl. by rewrite call_loaded, IH.
Qed.

Lemma calls_first a env rest :
  calls ((a, env) :: rest) unloaded =
  ((call a env unloaded).1.1
     :: map (λ ae, served ae.1 (call a env unloaded).1.2) rest,
   (call a env unloaded).1.2,
   (call a env unloaded).2).
Proof.
  simpl. rewrite call_unloaded. rewrite calls_loaded by reflexivity.
  simpl. by rewrite app_nil_r.
Qed.

(** C7: in any sequence of calls to the two accessors, the first call,
    whichever accessor it is, enters each load function once and caches both
    registries; every later call is served from that cache, enters no load
    function and emits nothing, whatever the constructors would answer by
    then. *)
Theorem registries_loaded_once a env rest :
  (calls ((a, env) :: rest) unloaded).1.1
    = Some (loaded a env) :: map (λ ae, Some (loaded ae.1 env)) rest ∧
  (calls ((a, env) :: rest) unloaded).1.2
    = {| registeredExecuters := Some (loaded Worker env);
         registeredLongRunningPlugins := Some (loaded LongRunning env) |} ∧
  (calls ((a, env) :: rest) unloaded).2 = (call a env unloaded).2 ∧
  loads (calls ((a, env) :: rest) unloaded).2 = (1, 1) ∧
  loads (calls rest (call a env unloaded).1.2).2 = (0, 0).
Proof.
  rewrite calls_first, !call_unloaded. simpl.
  rewrite calls_loaded by reflexivity. simpl.
  split; [|split; [done|split; [done|split; [|done]]]].
  - f_equal. apply map_ext. by intros [[] env'].
  - apply load_logs_only_log.
Qed.

(** C8: a constructor that returns an error costs only its own plugin: the
    long-running registry is empty or holds the cloudwatch adapter, the
    platform-independent registry holds under each of the two names exactly
    what that name's constructor produced, the worker registry is that one
    overlaid with the platform-dependent plugins, the manager's catalog is
    empty or holds cloudwatch, and both accessors hand out a registry
    whatever failed. *)
Theorem failed_constructor_omits_only_its_plugin env newCloudwatch :
  runcommand_Name env ≠ updatessmagent_Name env →
  (loadLongRunningPlugins env).1
    = from_option (λ h, {[ "aws:cloudWatch" := h ]}) ∅
        (constructed (lrpminvoker_NewPlugin env)) ∧
  (∀ k, (loadPlatformIndependentPlugins env).1 !! k =
        if decide (k = runcommand_Name env)
        then constructed (runcommand_NewPlugin env)
        else if decide (k = updatessmagent_Name env)
             then constructed (updatessmagent_NewPlugin env)
             else None) ∧
  (loadWorkerPlugins env).1
    = loadPlatformDependentPlugins env ∪ (loadPlatformIndependentPlugins env).1 ∧
  manager.RegisteredPlugins newCloudwatch
    = from_option (λ h, {[ "aws:cloudWatch" := cloudwatchPlugin h ]}) ∅
        (constructed newCloudwatch) ∧
  (RegisteredWorkerPlugins env unloaded).1.1 = Some (loaded Worker env) ∧
  (RegisteredLongRunningPlugins env unloaded).1.1 = Some (loaded LongRunning env).
Proof.
  intros Hne. split; [|split; [|split; [|split; [|split]]]].
  - unfold loadLongRunningPlugins, constructed.
    by destruct (lrpminvoker_NewPlugin env) as [h [e|]].
  - intros k. by apply loadPlatformIndependentPlugins_lookup.
  - apply loadWorkerPlugins_union.
  - unfold manager.RegisteredPlugins, constructed.
    by destruct newCloudwatch as [h [e|]].
  - change (RegisteredWorkerPlugins env unloaded)
      with (call Worker env unloaded). by rewrite call_unloaded.
  - change (RegisteredLongRunningPlugins env unloaded)
      with (call LongRunning env unloaded). by rewrite call_unloaded.
Qed.
End Catalog.

Lemma failed_constructor_omits_only_its_plugin_witness :
  (plugin.loadPlatformIndependentPlugins catalog.runcommandFails).1
    !! "aws:runShellScript" = None ∧
  (plugin.loadPlatformIndependentPlugins catalog.runcommandFails).1
    !! "aws:updateSsmAgent" = Some 3.
Proof.
  destruct (failed_constructor_omits_only_its_plugin catalog.runcommandFails
              (scenario.cloudwatchHandler, None)) as (_ & Hk & _).
  - vm_compute. discriminate.
  - split.
    + etrans; [apply (Hk "aws:runShellScript")|]. vm_compute. reflexivity.
    + etrans; [apply (Hk "aws:updateSsmAgent")|]. vm_compute. reflexivity.
Defined.

(** ** Startup, continued: panics, ordering and repetition *)
Section ExecuteOutcomes.
Import manager scenario observations.

Lemma scheduled_app t1 t2 : scheduled (t1 ++ t2) = scheduled t1 ++ scheduled t2.
Proof. apply omap_app. Qed.

Lemma scheduled_run minutes e l :
  scheduled (SchedulerEveryMinutesRun minutes e :: l) = minutes :: scheduled l.
Proof. done. Qed.

Lemma startCalls_app regs o1 o2 :
  startCalls regs (o1 ++ o2) = startCalls regs o1 ++ startCalls regs o2.
Proof. apply omap_app. Qed.

(** The revival loop never reaches the scheduler. *)
Lemma revival_loop_unscheduled order m :
  scheduled (trace_of (for_range order revive m)) = [].
Proof.
  induction order as [|n order IH]; [done|].
  rewrite for_range_cons.
  destruct (decide (startable (registeredPlugins m) n)) as [Hs|Hs].
  - destruct (revive_startable m n Hs) as (h & c & _ & ->).
    destruct (for_range order revive m) as [[] m' tr|m' tr]; simpl in *; done.
  - by rewrite (revive_not_startable m n Hs).
Qed.

Lemma revival_unscheduled running order m :
  scheduled (trace_of (revival running order m)) = [].
Proof.
  unfold revival. case_bool_decide; [apply revival_loop_unscheduled|done].
Qed.

(** The loop starts the names before the first one it cannot start, then
    panics. *)
Lemma revival_loop_stops pre n post m :
  Forall (startable (registeredPlugins m)) pre →
  ¬ startable (registeredPlugins m) n →
  ∃ tr, for_range (pre ++ n :: post) revive m = Panics m tr ∧
    started tr = startCalls (registeredPlugins m) pre.
Proof.
  intros Hpre Hn. induction Hpre as [|k pre Hk _ IH].
  - simpl app. rewrite for_range_cons, (revive_not_startable m n Hn).
    eexists. done.
  - destruct IH as (tr & Hrun & Hst).
    destruct (revive_startable m k Hk) as (h & c & Hc & Hrev).
    change ((k :: pre) ++ n :: post) with (k :: (pre ++ n :: post)).
    rewrite for_range_cons, Hrev, Hrun. eexists. split; [done|].
    change (k :: pre) with ([k] ++ pre).
    rewrite startCalls_app, Hc, started_app, Hst. done.
Qed.

Lemma range_order_nonempty {V} (running : GoMap V) order n :
  range_order running order → n ∈ order → 0 < len running.
Proof.
  intros Hord Hin. rewrite len_keys. unfold range_order in Hord.
  rewrite <- Hord. destruct order; [by apply not_elem_of_nil in Hin|simpl; lia].
Qed.

(** X1: after a successful read [Execute] panics exactly when some persisted
    name cannot be started, that is, is unregistered or registered with a nil
    handler. *)
Theorem Execute_panics_iff_unstartable m running order sched :
  range_order running order →
  panicked (Execute (running, None) order sched m) = true ↔
  ∃ n, has_key running n = true ∧ ¬ startable (registeredPlugins m) n.
Proof.
  intros Hord. rewrite Execute_read_ok. unfold revival. split.
  - intros Hp. case_bool_decide as Hlen; [|discriminate Hp].
    destruct (decide (Forall (startable (registeredPlugins m)) order))
      as [Hall|Hnot].
    + destruct (revival_loop_returns order (set_runningPlugins running m) Hall)
        as (tr & Hrun & _).
      rewrite Hrun in Hp. discriminate Hp.
    + apply not_Forall_Exists in Hnot; [|apply _].
      apply Exists_exists in Hnot as (n & Hin & Hn).
      exists n. split; [|done]. by apply (range_order_elem running order).
  - intros (n & Hk & Hn).
    assert (Hin : n ∈ order) by by apply (range_order_elem running).
    rewrite bool_decide_eq_true_2
      by by apply (range_order_nonempty running order n).
    pose proof (revival_loop_panics order (set_runningPlugins running m)) as Hp.
    destruct (for_range order revive (set_runningPlugins running m)); [|done].
    discriminate Hp. apply Exists_exists. by exists n.
Qed.

Lemma Execute_panics_iff_unstartable_witness :
  panicked (Execute (persistedMixed, None) ["aws:cloudWatch"; "unknown:plugin"]
              (Some lifeCycleJob, None) freshManager) = true.
Proof.
  apply (Execute_panics_iff_unstartable freshManager persistedMixed
           ["aws:cloudWatch"; "unknown:plugin"] (Some lifeCycleJob, None)).
  - apply (bool_decide_unpack _). vm_compute. reflexivity.
  - exists "unknown:plugin". split; [vm_compute; reflexivity|].
    apply (bool_decide_unpack _). vm_compute. reflexivity.
Defined.

(** X2: when the range reaches a name it cannot start, [Execute] has started
    exactly the names before it: the plugins after it are never revived, the
    scheduler is never asked, and the manager keeps the new running set and its
    old job handle. *)
Theorem Execute_revives_until_unstartable m running pre n post sched :
  range_order running (pre ++ n :: post) →
  Forall (startable (registeredPlugins m)) pre →
  ¬ startable (registeredPlugins m) n →
  ∃ tr,
    Execute (running, None) (pre ++ n :: post) sched m
    = Panics (set_runningPlugins running m) tr ∧
    started tr = startCalls (registeredPlugins m) pre ∧
    scheduled tr = [].
Proof.
  intros Hord Hpre Hn.
  destruct (revival_loop_stops pre n post (set_runningPlugins running m) Hpre Hn)
    as (tr & Hrun & Hst).
  pose proof (revival_loop_unscheduled (pre ++ n :: post)
                (set_runningPlugins running m)) as Hs.
  rewrite Hrun in Hs. simpl in Hs.
  exists ([Logf Info "starting long running plugin manager"; DataStoreRead] ++ tr).
  split.
  - rewrite Execute_read_ok. unfold revival.
    rewrite bool_decide_eq_true_2.
    + by rewrite Hrun.
    + apply (range_order_nonempty running (pre ++ n :: post) n Hord).
      rewrite elem_of_app, elem_of_cons. auto.
  - by rewrite started_app, scheduled_app, Hst, Hs.
Qed.

Lemma Execute_revives_until_unstartable_witness :
  ∃ tr,
    Execute (persistedMixed, None) (["aws:cloudWatch"] ++ "unknown:plugin" :: [])
      (Some lifeCycleJob, None) freshManager
    = Panics (set_runningPlugins persistedMixed freshManager) tr ∧
    started tr = [(cloudwatchHandler, "")] ∧
    scheduled tr = [].
Proof.
  apply (Execute_revives_until_unstartable freshManager persistedMixed
           ["aws:cloudWatch"] "unknown:plugin" [] (Some lifeCycleJob, None)).
  - apply (bool_decide_unpack _). vm_compute. reflexivity.
  - apply (bool_decide_unpack _). vm_compute. reflexivity.
  - apply (bool_decide_unpack _). vm_compute. reflexivity.
Defined.

(** What [Execute] leaves behind when it returns after a successful read. *)
Lemma Execute_returns_state running order sched m a m' tr :
  Execute (running, None) order sched m = Returns a m' tr →
  a = sched.2 ∧
  m' = set_managingLifeCycleJob sched.1 (set_runningPlugins running m) ∧
  ∃ t logs,
    revival running order (set_runningPlugins running m)
    = Returns tt (set_runningPlugins running m) t ∧
    tr = [Logf Info "starting long running plugin manager"; DataStoreRead]
           ++ t ++ SchedulerEveryMinutesRun PollFrequencyMinutes sched.2 :: logs ∧
    started logs = [] ∧ scheduled logs = [].
Proof.
  rewrite Execute_read_ok.
  pose proof (revival_frame running order (set_runningPlugins running m))
    as [Hm _].
  destruct (revival running order (set_runningPlugins running m))
    as [[] m2 t|m2 t]; [|discriminate].
  simpl in Hm. subst m2. intros [= <- <- <-].
  split; [done|]. split; [done|].
  eexists t, _. split; [done|]. split; [done|].
  by destruct sched as [job [e|]].
Qed.

Lemma Execute_startable_returns running order sched m :
  range_order running order →
  Forall (startable (registeredPlugins m)) order →
  ∃ tr,
    Execute (running, None) order sched m
    = Returns sched.2
        (set_managingLifeCycleJob sched.1 (set_runningPlugins running m)) tr ∧
    started tr = startCalls (registeredPlugins m) order.
Proof.
  intros Hord Hall. rewrite Execute_read_ok.
  assert (Hrev : ∃ t,
    revival running order (set_runningPlugins running m)
    = Returns tt (set_runningPlugins running m) t ∧
    started t = startCalls (registeredPlugins m) order).
  { unfold revival. case_bool_decide as Hlen.
    - destruct (revival_loop_returns order (set_runningPlugins running m) Hall)
        as (t & Hrun & Hst & _). by exists t.
    - rewrite (range_order_empty running order Hord) by lia. by eexists. }
  destruct Hrev as (t & -> & Hst).
  eexists. split; [reflexivity|].
  change (started ([Logf Info "starting long running plugin manager";
                    DataStoreRead]
            ++ t ++ [SchedulerEveryMinutesRun PollFrequencyMinutes sched.2]
            ++ match sched.2 with
               | Some _ => [Logf Error "unable to schedule long running plugins manager. %v"]
               | None => []
               end) = startCalls (registeredPlugins m) order).
  rewrite !started_app, Hst. destruct sched as [job [e|]]; simpl;
    by rewrite app_nil_r.
Qed.

(** X3: [Execute] asks the scheduler exactly once, for the 15-minute interval and
    after every [Start] call, exactly when it returns after a successful
    read; on a read failure or a panic the scheduler is never asked and the
    job handle is left as it was. *)
Theorem Execute_schedules_once_after_revival m read order sched :
  match Execute read order sched m with
  | Returns a m' tr =>
      match read.2 with
      | None =>
          a = sched.2 ∧ managingLifeCycleJob m' = sched.1 ∧
          ∃ t logs,
            tr = t ++ SchedulerEveryMinutesRun PollFrequencyMinutes sched.2 :: logs ∧
            scheduled t = [] ∧ scheduled logs = [] ∧ started logs = []
      | Some _ =>
          a = read.2 ∧ scheduled tr = [] ∧
          managingLifeCycleJob m' = managingLifeCycleJob m
      end
  | Panics m' tr =>
      scheduled tr = [] ∧ managingLifeCycleJob m' = managingLifeCycleJob m
  end.
Proof.
  destruct read as [running [e|]]; [done|].
  destruct (Execute (running, None) order sched m) as [a m' tr|m' tr] eqn:Hex.
  - destruct (Execute_returns_state _ _ _ _ _ _ _ Hex)
      as (-> & -> & t & logs & Hrev & -> & Hst & Hsc).
    simpl. split; [done|]. split; [done|].
    exists ([Logf Info "starting long running plugin manager"; DataStoreRead] ++ t),
      logs.
    split; [by rewrite <- app_assoc|].
    pose proof (revival_unscheduled running order (set_runningPlugins running m))
      as Hu. rewrite Hrev in Hu. simpl in Hu.
    by rewrite scheduled_app, Hu.
  - rewrite Execute_read_ok in Hex.
    pose proof (revival_frame running order (set_runningPlugins running m))
      as [Hm _].
    pose proof (revival_unscheduled running order (set_runningPlugins running m))
      as Hu.
    destruct (revival running order (set_runningPlugins running m))
      as [[] m2 t|m2 t]; [discriminate|].
    simpl in Hm, Hu. injection Hex as <- <-. subst m2.
    split; [|done].
    change (scheduled ([Logf Info "starting long running plugin manager";
                        DataStoreRead] ++ t) = []).
    by rewrite scheduled_app, Hu.
Qed.

(** X4: nothing makes [Execute] start a plugin once only: run a second time it
    calls [Start] again on every persisted plugin, and it overwrites the job
    handle of the first run, which [RequestStop] can then no longer
    cancel. *)
Theorem Execute_twice_starts_twice m running1 order1 sched1
    running2 order2 sched2 :
  range_order running1 order1 →
  range_order running2 order2 →
  Forall (startable (registeredPlugins m)) order1 →
  Forall (startable (registeredPlugins m)) order2 →
  ∃ m1 tr1 m2 tr2,
    Execute (running1, None) order1 sched1 m = Returns sched1.2 m1 tr1 ∧
    Execute (running2, None) order2 sched2 m1 = Returns sched2.2 m2 tr2 ∧
    started (tr1 ++ tr2)
    = startCalls (registeredPlugins m) order1
        ++ startCalls (registeredPlugins m) order2 ∧
    scheduled (tr1 ++ tr2) = [PollFrequencyMinutes; PollFrequencyMinutes] ∧
    managingLifeCycleJob m2 = sched2.1.
Proof.
  intros Ho1 Ho2 Ha1 Ha2.
  destruct (Execute_startable_returns running1 order1 sched1 m Ho1 Ha1)
    as (tr1 & Hex1 & Hst1).
  set (m1 := set_managingLifeCycleJob sched1.1 (set_runningPlugins running1 m)) in *.
  destruct (Execute_startable_returns running2 order2 sched2 m1 Ho2 Ha2)
    as (tr2 & Hex2 & Hst2).
  eexists m1, tr1, _, tr2. split; [done|]. split; [exact Hex2|].
  split; [by rewrite started_app, Hst1, Hst2|]. split; [|done].
  destruct (Execute_returns_state _ _ _ _ _ _ _ Hex1)
    as (_ & _ & t1 & l1 & Hr1 & -> & _ & Hl1).
  destruct (Execute_returns_state _ _ _ _ _ _ _ Hex2)
    as (_ & _ & t2 & l2 & Hr2 & -> & _ & Hl2).
  pose proof (revival_unscheduled running1 order1 (set_runningPlugins running1 m))
    as Hu1. rewrite Hr1 in Hu1. simpl in Hu1.
  pose proof (revival_unscheduled running2 order2 (set_runningPlugins running2 m1))
    as Hu2. rewrite Hr2 in Hu2. simpl in Hu2.
  by rewrite !scheduled_app, !scheduled_run, Hu1, Hu2, Hl1, Hl2.
Qed.

Lemma Execute_twice_starts_twice_witness :
  ∃ m1 tr1 m2 tr2,
    Execute (persistedCloudwatch, None) ["aws:cloudWatch"] (Some 3, None)
      freshManager = Returns None m1 tr1 ∧
    Execute (persistedCloudwatch, None) ["aws:cloudWatch"] (Some 4, None) m1
    = Returns None m2 tr2 ∧
    started (tr1 ++ tr2) = [(cloudwatchHandler, ""); (cloudwatchHandler, "")] ∧
    scheduled (tr1 ++ tr2) = [PollFrequencyMinutes; PollFrequencyMinutes] ∧
    managingLifeCycleJob m2 = Some 4.
Proof.
  apply (Execute_twice_starts_twice freshManager
           persistedCloudwatch ["aws:cloudWatch"] (Some 3, None)
           persistedCloudwatch ["aws:cloudWatch"] (Some 4, None)).
  - apply (bool_decide_unpack _). vm_compute. reflexivity.
  - apply (bool_decide_unpack _). vm_compute. reflexivity.
  - apply (bool_decide_unpack _). vm_compute. reflexivity.
  - apply (bool_decide_unpack _). vm_compute. reflexivity.
Defined.
End ExecuteOutcomes.

(** ** Reconciliation, continued: what a pass asks and what it keeps *)
Section ReconciliationPass.
Import manager scenario observations.

Variable isRunning : managerContracts.LongRunningPlugin → bool.

Lemma isRunningChecks_app t1 t2 :
  isRunningChecks (t1 ++ t2) = isRunningChecks t1 ++ isRunningChecks t2.
Proof. apply omap_app. Qed.

Lemma healthcheck_checks m n :
  handlers_present (registeredPlugins m) →
  ∃ m' tr,
    healthcheck isRunning n m = Returns tt m' tr ∧
    same_bookkeeping m m' ∧
    isRunningChecks tr = registeredHandlers (registeredPlugins m) [n].
Proof.
  intros Hh. unfold healthcheck, bind, get, registeredHandlers. simpl.
  destruct (registeredPlugins m !! n) as [p|] eqn:Hp; simpl.
  - destruct (Hh n p Hp) as [h Hhp].
    unfold callIsRunning, bind, emit, ret. rewrite Hhp. simpl.
    destruct (isRunning h); simpl.
    + by exists m, [HandlerIsRunning h true].
    + unfold submitStart, logf, bind, get, emit, modify. simpl.
      destruct (task.Submit (startPlugin m) n (startJob p)) as [pool acc].
      simpl. eexists _, _. split; [reflexivity|]. done.
  - by exists m, [].
Qed.

Lemma healthcheck_loop_checks order m :
  handlers_present (registeredPlugins m) →
  ∃ m' tr,
    for_range order (healthcheck isRunning) m = Returns tt m' tr ∧
    same_bookkeeping m m' ∧
    isRunningChecks tr = registeredHandlers (registeredPlugins m) order.
Proof.
  revert m. induction order as [|n order IH]; intros m Hh.
  - by exists m, [].
  - destruct (healthcheck_checks m n Hh)
      as (m1 & t1 & Hrun1 & (Hreg1 & Hrp1 & Hsp1 & Hjob1) & Hc1).
    assert (Hh1 : handlers_present (registeredPlugins m1)) by by rewrite Hreg1.
    destruct (IH m1 Hh1)
      as (m2 & t2 & Hrun2 & (Hreg2 & Hrp2 & Hsp2 & Hjob2) & Hc2).
    exists m2, (t1 ++ t2). rewrite for_range_cons, Hrun1, Hrun2.
    split; [done|]. split.
    { unfold same_bookkeeping. by rewrite Hreg2, Hrp2, Hsp2, Hjob2. }
    rewrite isRunningChecks_app, Hc1, Hc2, Hreg1.
    unfold registeredHandlers. change (n :: order) with ([n] ++ order).
    by rewrite omap_app.
Qed.

(** X5: a reconciliation pass asks [IsRunning] once for every running name that
    is registered, in range order, and for nothing else; it leaves the running
    set, the catalog, the stop pool and the job handle as they were. *)
Theorem ensurePluginsAreRunning_checks_registered_once m order :
  range_order (runningPlugins m) order →
  handlers_present (registeredPlugins m) →
  ∃ m' tr,
    ensurePluginsAreRunning isRunning order m = Returns tt m' tr ∧
    isRunningChecks tr = registeredHandlers (registeredPlugins m) order ∧
    same_bookkeeping m m'.
Proof.
  intros Hord Hh. unfold ensurePluginsAreRunning, bind, get. simpl.
  case_bool_decide as Hlen.
  - destruct (healthcheck_loop_checks order m Hh) as (m' & tr & -> & Hsame & Hc).
    by exists m', tr.
  - assert (order = []) as ->
      by (apply (range_order_empty (runningPlugins m)); [done|lia]).
    eexists _, _. simpl. split; [reflexivity|]. done.
Qed.
End ReconciliationPass.

Lemma ensurePluginsAreRunning_checks_registered_once_witness :
  ∃ m' tr,
    manager.ensurePluginsAreRunning (λ _, true)
      ["aws:cloudWatch"; "unknown:plugin"]
      (manager.set_runningPlugins observations.persistedMixed
         scenario.freshManager) = manager.Returns tt m' tr ∧
    observations.isRunningChecks tr = [scenario.cloudwatchHandler].
Proof.
  destruct (ensurePluginsAreRunning_checks_registered_once (λ _, true)
              (manager.set_runningPlugins observations.persistedMixed
                 scenario.freshManager)
              ["aws:cloudWatch"; "unknown:plugin"])
    as (m' & tr & Heq & Hc & _).
  - apply (bool_decide_unpack _). vm_compute. reflexivity.
  - apply (bool_decide_unpack _). vm_compute. reflexivity.
  - exists m', tr. split; [exact Heq|]. rewrite Hc. vm_compute. reflexivity.
Defined.

Section Singleton.
Import manager scenario observations.

Lemma filter_eq_NoDup (k : string) (l : list string) :
  NoDup l →
  filter (λ n, n = k) l = if decide (k ∈ l) then [k] else [].
Proof.
  induction 1 as [|x l Hx Hnd IH]; [done|].
  rewrite filter_cons, IH. destruct (decide (x = k)) as [->|Hne].
  - rewrite decide_False by done.
    rewrite decide_True by apply list_elem_of_here. done.
  - destruct (decide (k ∈ l)) as [Hin|Hin].
    + rewrite decide_True by by apply list_elem_of_further. done.
    + rewrite decide_False; [done|].
      intros [->|?]%elem_of_cons; done.
Qed.

Lemma filter_never (P : string → Prop) `{∀ n, Decision (P n)} (l : list string) :
  (∀ n, ¬ P n) → filter P l = [].
Proof.
  intros Hno. induction l as [|x l IH]; [done|].
  by rewrite filter_cons, decide_False.
Qed.

Lemma Execute_keeps_catalog read order sched m :
  registeredPlugins (manager_of (Execute read order sched m))
  = registeredPlugins m.
Proof.
  destruct read as [running [e|]]; [done|].
  rewrite Execute_read_ok.
  pose proof (revival_frame running order (set_runningPlugins running m))
    as [Hm _].
  destruct (revival running order (set_runningPlugins running m));
    simpl in *; by subst.
Qed.

Lemma needsStart_singleton newCloudwatch isRunning n :
  needsStart (RegisteredPlugins newCloudwatch) isRunning n ↔
  n = "aws:cloudWatch" ∧ newCloudwatch.2 = None ∧
  isRunning newCloudwatch.1 = false.
Proof.
  unfold needsStart. destruct newCloudwatch as [h [e|]]; simpl.
  - split.
    + intros (p & h' & Hp & _). by rewrite lookup_empty in Hp.
    + intros (_ & [=] & _).
  - unfold PluginNameAwsCloudwatch. split.
    + intros (p & h' & Hp & Hh & Hr).
      rewrite lookup_insert in Hp. case_decide as Hn; [|by rewrite lookup_empty in Hp].
      injection Hp as <-. simpl in Hh. injection Hh as <-. done.
    + intros (-> & _ & Hr). eexists _, h.
      rewrite lookup_insert_eq. done.
Qed.

(** X6: on the manager [EnsureInitialization] builds, once [Execute] has
    returned, a reconciliation pass never panics and can submit one job only:
    "aws:cloudWatch", and that exactly when the name is in the running set,
    the cloudwatch constructor had succeeded and [IsRunning] answers false. *)
Theorem singleton_reconciles_only_cloudwatch newCloudwatch m read order sched
    a m1 tr isRunning order1 :
  EnsureInitialization newCloudwatch None = Some m →
  Execute read order sched m = Returns a m1 tr →
  range_order (runningPlugins m1) order1 →
  ∃ m2 tr1,
    ensurePluginsAreRunning isRunning order1 m1 = Returns tt m2 tr1 ∧
    submitted startPool tr1
    = if bool_decide (has_key (runningPlugins m1) "aws:cloudWatch" = true ∧
                      newCloudwatch.2 = None ∧
                      isRunning newCloudwatch.1 = false)
      then ["aws:cloudWatch"] else [].
Proof.
  intros [= <-] Hex Hord.
  pose proof (Execute_keeps_catalog read order sched
                {| startPlugin := task.emptyPool; stopPlugin := task.emptyPool;
                   runningPlugins := Some ∅;
                   registeredPlugins := RegisteredPlugins newCloudwatch;
                   managingLifeCycleJob := None |}) as Hreg.
  rewrite Hex in Hreg. simpl in Hreg.
  assert (Hh : handlers_present (registeredPlugins m1))
    by (rewrite Hreg; apply RegisteredPlugins_handlers_present).
  unfold ensurePluginsAreRunning, bind, get. simpl.
  case_bool_decide as Hlen.
  - destruct (healthcheck_loop isRunning order1 m1 Hh)
      as (m2 & tr1 & -> & _ & Hsub & _).
    exists m2, tr1. split; [done|]. rewrite Hsub, Hreg.
    rewrite (list_filter_iff _ (λ n, n = "aws:cloudWatch" ∧
                 newCloudwatch.2 = None ∧ isRunning newCloudwatch.1 = false))
      by (intros n; apply needsStart_singleton).
    pose proof (range_order_NoDup _ _ Hord) as Hnd.
    pose proof (range_order_elem _ _ "aws:cloudWatch" Hord) as Hel.
    destruct (decide (newCloudwatch.2 = None ∧
                      isRunning newCloudwatch.1 = false)) as [Hok|Hno].
    + rewrite (list_filter_iff _ (λ n, n = "aws:cloudWatch"))
        by (intros n; tauto).
      rewrite filter_eq_NoDup by done.
      destruct (decide ("aws:cloudWatch" ∈ order1)) as [Hin|Hin].
      * rewrite bool_decide_eq_true_2; [done|]. tauto.
      * rewrite bool_decide_eq_false_2; [done|]. tauto.
    + rewrite bool_decide_eq_false_2 by tauto.
      apply filter_never. intros n. tauto.
  - assert (order1 = []) as ->
      by (apply (range_order_empty (runningPlugins m1)); [done|lia]).
    eexists _, _. split; [reflexivity|]. simpl.
    rewrite bool_decide_eq_false_2; [done|].
    intros (Hk & _). apply (range_order_elem _ _ _ Hord) in Hk.
    by apply not_elem_of_nil in Hk.
Qed.
End Singleton.

Lemma singleton_reconciles_only_cloudwatch_witness :
  ∃ m1 tr m2 tr1,
    manager.Execute (scenario.persistedCloudwatch, None) ["aws:cloudWatch"]
      (Some scenario.lifeCycleJob, None) scenario.freshManager
    = manager.Returns None m1 tr ∧
    manager.ensurePluginsAreRunning (λ _, false) ["aws:cloudWatch"] m1
    = manager.Returns tt m2 tr1 ∧
    manager.submitted manager.startPool tr1 = ["aws:cloudWatch"].
Proof.
  pose (r := manager.Execute (scenario.persistedCloudwatch, None)
               ["aws:cloudWatch"] (Some scenario.lifeCycleJob, None)
               scenario.freshManager).
  assert (Hex : r = manager.Returns None (manager.manager_of r)
                      (manager.trace_of r)) by (vm_compute; reflexivity).
  destruct (singleton_reconciles_only_cloudwatch
              (scenario.cloudwatchHandler, None) scenario.freshManager
              (scenario.persistedCloudwatch, None) ["aws:cloudWatch"]
              (Some scenario.lifeCycleJob, None) None
              (manager.manager_of r) (manager.trace_of r)
              (λ _, false) ["aws:cloudWatch"] eq_refl Hex)
    as (m2 & tr1 & Heq & Hsub).
  - apply (bool_decide_unpack _). vm_compute. reflexivity.
  - exists (manager.manager_of r), (manager.trace_of r), m2, tr1.
    split; [exact Hex|]. split; [exact Heq|].
    rewrite Hsub. vm_compute. reflexivity.
Defined.

(** ** Graceful shutdown, continued: the wait group, overlap and repetition *)
Section RequestStopRuns.
Import manager scenario observations contracts.

Lemma quitSends_app t1 t2 : quitSends (t1 ++ t2) = quitSends t1 ++ quitSends t2.
Proof. apply omap_app. Qed.

Lemma quitSends_shutdown_events pools :
  Forall (λ e, is_Some (eventPool e)) pools → quitSends pools = [].
Proof.
  induction 1 as [|e pools [q Hq] _ IH]; [done|].
  destruct e; try discriminate Hq; done.
Qed.

(** The trace of a call that has returned: the quit send, if there is a job,
    and then shutdown events only. *)
Lemma returned_trace stopType drained schedule m :
  callerPc (RequestStop stopType drained schedule m) = Returned →
  quitSends (stTrace (RequestStop stopType drained schedule m))
  = quitSends (quitEvents m) ∧
  managingLifeCycleJob (stManager (RequestStop stopType drained schedule m))
  = managingLifeCycleJob m.
Proof.
  intros Hret.
  destruct (RequestStop_ok stopType drained schedule m)
    as [_ (_ & _ & Hjob & _ & pools & Htr & Hall & _)].
  split; [|done]. rewrite Htr, Hret. simpl.
  by rewrite quitSends_app, (quitSends_shutdown_events pools Hall), app_nil_r.
Qed.

Lemma completion_callerPc stopType drained schedule m :
  callerPc (RequestStop stopType drained (schedule ++ completion) m) = Returned.
Proof.
  pose proof (RequestStop_completion stopType drained schedule m) as Hret.
  unfold returned in Hret. by destruct (callerPc _).
Qed.

(** X7: the wait-group counter stays between 0 and 2 in every state
    [RequestStop] can reach, so no [wg.Done()] drives it negative, and it is 0
    once the call has returned. *)
Theorem RequestStop_waitgroup_in_bounds stopType drained schedule m :
  (0 ≤ wg (RequestStop stopType drained schedule m) ≤ 2)%Z ∧
  (returned (RequestStop stopType drained schedule m) = None ∨
   wg (RequestStop stopType drained schedule m) = 0%Z).
Proof.
  destruct (RequestStop_ok stopType drained schedule m) as [(Hpc & Hwg & _) _].
  unfold returned. rewrite Hwg.
  destruct (callerPc _), (startPc _), (stopPc _);
    try discriminate Hpc; simpl; (split; [lia|auto]).
Qed.

(** X8: the two shutdowns are not serialized: under some schedule both
    goroutines have called [ShutdownAndWait] before either call returns, and
    the stop pool's call returns first. *)
Theorem RequestStop_shutdowns_can_overlap stopType drained m :
  ∃ schedule,
    stTrace (RequestStop stopType drained schedule m)
    = quitEvents m
      ++ [PoolShutdownCall startPool (selectTimeout stopType);
          PoolShutdownCall stopPool (selectTimeout stopType);
          PoolShutdownReturn stopPool (drained stopPool);
          PoolShutdownReturn startPool (drained startPool)] ∧
    returned (RequestStop stopType drained schedule m) = Some None.
Proof.
  exists overlapping.
  destruct m as [p1 p2 run regs [job|]], stopType; vm_compute; done.
Qed.

(** X9: [RequestStop] does not clear the job handle: called a second time on a
    manager that holds a job, it sends on the same [Quit] channel again and
    calls [ShutdownAndWait] again on both pools, already shut. *)
Theorem RequestStop_twice_quits_twice st1 d1 sch1 st2 d2 sch2 m job :
  managingLifeCycleJob m = Some job →
  managingLifeCycleJob
    (stManager (RequestStop st1 d1 (sch1 ++ completion) m)) = Some job ∧
  quitSends (stTrace (RequestStop st1 d1 (sch1 ++ completion) m)) = [job] ∧
  quitSends
    (stTrace (RequestStop st2 d2 (sch2 ++ completion)
                (stManager (RequestStop st1 d1 (sch1 ++ completion) m))))
  = [job] ∧
  ∀ q,
    task.accepting
      (poolOf q (stManager (RequestStop st1 d1 (sch1 ++ completion) m)))
    = false ∧
    poolTrace q
      (stTrace (RequestStop st2 d2 (sch2 ++ completion)
                  (stManager (RequestStop st1 d1 (sch1 ++ completion) m))))
    = [PoolShutdownCall q (selectTimeout st2); PoolShutdownReturn q (d2 q)].
Proof.
  intros Hjob.
  destruct (returned_trace st1 d1 (sch1 ++ completion) m
              (completion_callerPc st1 d1 sch1 m)) as [Hq1 Hj1].
  set (m1 := stManager (RequestStop st1 d1 (sch1 ++ completion) m)) in *.
  destruct (returned_trace st2 d2 (sch2 ++ completion) m1
              (completion_callerPc st2 d2 sch2 m1)) as [Hq2 _].
  rewrite Hj1, Hjob. rewrite Hq1, Hq2. unfold quitEvents. rewrite Hj1, Hjob.
  do 3 (split; [done|]). intros q. split.
  - apply (returned_after_shutdowns st1 d1 (sch1 ++ completion) m q).
    apply completion_callerPc.
  - apply (returned_after_shutdowns st2 d2 (sch2 ++ completion) m1 q).
    apply completion_callerPc.
Qed.

Lemma RequestStop_twice_quits_twice_witness :
  quitSends
    (stTrace (RequestStop StopTypeSoftStop (λ _, true) ([] ++ completion)
                (set_managingLifeCycleJob (Some lifeCycleJob) freshManager))) 
  = [lifeCycleJob] ∧
  quitSends
    (stTrace (RequestStop StopTypeHardStop (λ _, false) ([] ++ completion)
                (stManager
                   (RequestStop StopTypeSoftStop (λ _, true) ([] ++ completion)
                      (set_managingLifeCycleJob (Some lifeCycleJob) freshManager)))))
  = [lifeCycleJob].
Proof.
  destruct (RequestStop_twice_quits_twice StopTypeSoftStop (λ _, true) []
              StopTypeHardStop (λ _, false) []
              (set_managingLifeCycleJob (Some lifeCycleJob) freshManager)
              lifeCycleJob) as (_ & H1 & H2 & _).
  - reflexivity.
  - split; [exact H1|exact H2].
Defined.

(** X10: the job [Execute] registered is the one [RequestStop] cancels: after an
    [Execute] that returned with a job handle, the completed [RequestStop]
    sends on that job's [Quit] channel, once, before any shutdown event. *)
Theorem RequestStop_quits_job_of_Execute m running order job e a m1 tr
    stopType drained schedule :
  Execute (running, None) order (Some job, e) m = Returns a m1 tr →
  ∃ pools,
    stTrace (RequestStop stopType drained (schedule ++ completion) m1)
    = JobQuitSend job :: pools ∧
    Forall (λ ev, is_Some (eventPool ev)) pools.
Proof.
  intros Hex.
  destruct (Execute_returns_state _ _ _ _ _ _ _ Hex) as (_ & -> & _).
  destruct (RequestStop_ok stopType drained (schedule ++ completion)
              (set_managingLifeCycleJob (Some job)
                 (set_runningPlugins running m)))
    as [_ (_ & _ & _ & _ & pools & Htr & Hall & _)].
  rewrite completion_callerPc in Htr. exists pools. done.
Qed.

Lemma RequestStop_quits_job_of_Execute_witness :
  ∃ m1 tr pools,
    Execute (persistedCloudwatch, None) ["aws:cloudWatch"]
      (Some lifeCycleJob, None) freshManager = Returns None m1 tr ∧
    stTrace (RequestStop StopTypeSoftStop (λ _, true) ([] ++ completion) m1)
    = JobQuitSend lifeCycleJob :: pools.
Proof.
  pose (r := Execute (persistedCloudwatch, None) ["aws:cloudWatch"]
               (Some lifeCycleJob, None) freshManager).
  assert (Hex : r = Returns None (manager_of r) (trace_of r))
    by (vm_compute; reflexivity).
  destruct (RequestStop_quits_job_of_Execute freshManager persistedCloudwatch
              ["aws:cloudWatch"] lifeCycleJob None None (manager_of r)
              (trace_of r) StopTypeSoftStop (λ _, true) [] Hex)
    as (pools & Htr & _).
  exists (manager_of r), (trace_of r), pools. split; [exact Hex|exact Htr].
Defined.
End RequestStopRuns.

(** ** The singleton: [EnsureInitialization] and [GetInstance] *)
Section SingletonAccess.
Import manager scenario observations.

Lemma initializations_built m answers :
  initializations answers (Some m) = Some m.
Proof. induction answers as [|cw answers IH]; [done|]. simpl. apply IH. Qed.

Lemma initializations_cons cw answers s :
  initializations (cw :: answers) s
  = initializations answers (EnsureInitialization cw s).
Proof. done. Qed.

(** X11: however often [EnsureInitialization] is called, the instance is the one
    the first call built, from the first answer of the cloudwatch
    constructor; [GetInstance] then hands it out with a nil error, and with an
    error as long as no call was made.  The instance starts with an empty
    running set, no job handle and two empty pools. *)
Theorem EnsureInitialization_builds_once newCloudwatch answers :
  ∃ m,
    initializations (newCloudwatch :: answers) None = Some m ∧
    GetInstance (initializations (newCloudwatch :: answers) None) = (Some m, None) ∧
    GetInstance (initializations [] None)
    = (None, Some "lrpm isn't initialized yet") ∧
    GetRegisteredPlugins m = RegisteredPlugins newCloudwatch ∧
    runningPlugins m = Some ∅ ∧
    managingLifeCycleJob m = None ∧
    startPlugin m = task.emptyPool ∧ stopPlugin m = task.emptyPool.
Proof.
  destruct (EnsureInitialization newCloudwatch None) as [m|] eqn:Hm;
    [|discriminate Hm].
  exists m. rewrite !initializations_cons, Hm, initializations_built.
  injection Hm as <-. done.
Qed.
End SingletonAccess.

(** ** Plugin catalog, continued: provenance of entries and logging *)
Section CatalogEntries.
Import plugin catalog observations.

Lemma loadPlatformIndependentPlugins_entry env k v :
  (loadPlatformIndependentPlugins env).1 !! k = Some v →
  (k = runcommand_Name env ∧ runcommand_NewPlugin env = (v, None)) ∨
  (k = updatessmagent_Name env ∧ updatessmagent_NewPlugin env = (v, None)).
Proof.
  unfold loadPlatformIndependentPlugins.
  destruct (runcommand_NewPlugin env) as [p1 [e1|]],
           (updatessmagent_NewPlugin env) as [p2 [e2|]]; simpl;
    rewrite ?lookup_insert, ?lookup_empty; repeat case_decide;
    intros [=]; subst; auto.
Qed.

(** X12: every entry of the worker registry was handed out by a constructor that
    returned no error, under that constructor's name, or comes from the
    platform-dependent plugins; this needs no assumption on the names. *)
Theorem worker_entries_come_from_successful_constructors env k v :
  (loadWorkerPlugins env).1 !! k = Some v →
  loadPlatformDependentPlugins env !! k = Some v ∨
  (k = runcommand_Name env ∧ runcommand_NewPlugin env = (v, None)) ∨
  (k = updatessmagent_Name env ∧ updatessmagent_NewPlugin env = (v, None)).
Proof.
  rewrite loadWorkerPlugins_union, lookup_union_Some_raw.
  intros [Hdep|[_ Hind]]; [by left|right].
  by apply loadPlatformIndependentPlugins_entry.
Qed.

Lemma worker_entries_come_from_successful_constructors_witness :
  loadPlatformDependentPlugins runcommandFails !! "aws:updateSsmAgent" = Some 3 ∨
  ("aws:updateSsmAgent" = runcommand_Name runcommandFails ∧
   runcommand_NewPlugin runcommandFails = (3, None)) ∨
  ("aws:updateSsmAgent" = updatessmagent_Name runcommandFails ∧
   updatessmagent_NewPlugin runcommandFails = (3, None)).
Proof.
  apply (worker_entries_come_from_successful_constructors runcommandFails
           "aws:updateSsmAgent" 3).
  vm_compute. reflexivity.
Defined.

(** X13: every constructor error is logged, once: a load writes as many [Errorf]
    lines as constructors failed, the first accessor call writes those of all
    three constructors, and a call on a loaded catalog writes none. *)
Theorem load_logs_each_failure_once a env rest :
  length (errorLogs (loadLongRunningPlugins env).2)
  = failed (lrpminvoker_NewPlugin env) ∧
  length (errorLogs (loadWorkerPlugins env).2)
  = failed (runcommand_NewPlugin env) + failed (updatessmagent_NewPlugin env) ∧
  length (errorLogs (call a env unloaded).2)
  = failed (runcommand_NewPlugin env) + failed (updatessmagent_NewPlugin env)
    + failed (lrpminvoker_NewPlugin env) ∧
  errorLogs (calls rest (call a env unloaded).1.2).2 = [].
Proof.
  rewrite call_unloaded, loadWorkerPlugins_log. simpl.
  rewrite calls_loaded by reflexivity. simpl.
  unfold loadPlatformIndependentPlugins, loadLongRunningPlugins, failed.
  destruct (runcommand_NewPlugin env) as [p1 [e1|]],
           (updatessmagent_NewPlugin env) as [p2 [e2|]],
           (lrpminvoker_NewPlugin env) as [p3 [e3|]]; done.
Qed.

(** X14: the framework and the manager agree on the long-running names: whatever
    name [loadLongRunningPlugins] hands to the invoker is a name
    [manager.RegisteredPlugins] registers, provided the cloudwatch constructor
    succeeded. *)
Theorem invoker_names_are_registered env newCloudwatch k :
  is_Some ((loadLongRunningPlugins env).1 !! k) →
  newCloudwatch.2 = None →
  is_Some (manager.RegisteredPlugins newCloudwatch !! k).
Proof.
  unfold loadLongRunningPlugins.
  destruct (lrpminvoker_NewPlugin env) as [h [e|]]; simpl.
  - rewrite lookup_empty. by intros [? [=]].
  - rewrite lookup_insert.
    case_decide as Hk; [|rewrite lookup_empty; by intros [? [=]]].
    subst k. intros _. destruct newCloudwatch as [c [e|]]; [done|]. intros _.
    unfold manager.RegisteredPlugins, manager.PluginNameAwsCloudwatch.
    rewrite lookup_insert_eq. eauto.
Qed.

Lemma invoker_names_are_registered_witness :
  is_Some (manager.RegisteredPlugins (scenario.cloudwatchHandler, None)
             !! "aws:cloudWatch").
Proof.
  apply (invoker_names_are_registered runcommandFails
           (scenario.cloudwatchHandler, None) "aws:cloudWatch").
  - vm_compute. eauto.
  - reflexivity.
Defined.
End CatalogEntries.
